(** * UK Income Factory: valuation and dividend forecast of [streamlit_app.py]

    A shallow embedding of the computational core of the dashboard script:
    the quote loop, the derived valuation columns, the twelve-month dividend
    schedule, the headline metrics and the monthly bucketing.

    Modelling conventions.
    - A DataFrame is the list of its rows, a Series the list of its values.
      A row of the holdings table carries its index label, the position it
      had when the table was read: the filter that drops the "Total" rows
      keeps the labels, and the fetch loop hands [(label+1)/len(df)] to
      the progress bar, which raises on a value it does not accept.
    - Numbers ([num]) are exact rationals extended with the IEEE special
      values (infinities, not-a-number): division by zero and missing values
      behave as in pandas; rounding error and overflow of binary floating
      point, and overflow of 64-bit integer columns, are not modelled.
      Finite results are kept in lowest terms, so that [=] on results is
      equality of numbers.  A property that depends on this says so.
    - The monthly bucketing is modelled a second time on float64 amounts
      ([monthly_f64]), with the summation pandas performs, because its
      totals depend on the order of the rows.
    - Python exceptions are the [Raise] branch of [result].
    - The other Streamlit widgets, the HTTP layer and the caches are
      outside the model; the two providers, [str.title] and the sort of
      the event table appear as parameters. *)

From Stdlib Require Import ZArith QArith Qround Qabs Qminmax Lia Lqa Bool Ascii
  String List.
From Stdlib Require Import PrimFloat.
From stdpp Require Import gmap strings list pretty sorting.

Local Open Scope Z_scope.

(** ** Exceptions *)

Inductive exn :=
| ValueError | OverflowError | TypeError | KeyError | AttributeError
| StreamlitAPIException.

Inductive result (A : Type) :=
| Ok (a : A)
| Raise (e : exn).
Arguments Ok {A} a.
Arguments Raise {A} e.

Global Instance result_ret : MRet result := λ A, Ok.
Global Instance result_bind : MBind result := λ A B f m,
  match m with Ok a => f a | Raise e => Raise e end.

(** A [for] loop whose body may raise: the state is threaded through. *)
Fixpoint for_each {A S : Type} (body : A → S → result S) (l : list A) (s : S)
  : result S :=
  match l with
  | [] => Ok s
  | x :: l' => s' ← body x s; for_each body l' s'
  end.

(** ** Numbers *)

Module Num.

Inductive num :=
| Fin (q : Q)
| Inf (neg : bool)
| NaN.

Definition qneg (q : Q) : bool := negb (Qle_bool 0 q).
Definition qzero (q : Q) : bool := Qeq_bool q 0.

Definition of_Z (z : Z) : num := Fin (inject_Z z).

Definition isnan (x : num) : bool := match x with NaN => true | _ => false end.

Definition isfinite (x : num) : bool := match x with Fin _ => true | _ => false end.

Definition add (x y : num) : num :=
  match x, y with
  | NaN, _ | _, NaN => NaN
  | Fin a, Fin b => Fin (Qred (a + b))
  | Inf s, Fin _ | Fin _, Inf s => Inf s
  | Inf s, Inf t => if Bool.eqb s t then Inf s else NaN
  end.

Definition opp (x : num) : num :=
  match x with
  | NaN => NaN
  | Fin a => Fin (Qred (- a))
  | Inf s => Inf (negb s)
  end.

Definition sub (x y : num) : num := add x (opp y).

Definition mul (x y : num) : num :=
  match x, y with
  | NaN, _ | _, NaN => NaN
  | Fin a, Fin b => Fin (Qred (a * b))
  | Inf s, Fin b | Fin b, Inf s => if qzero b then NaN else Inf (xorb s (qneg b))
  | Inf s, Inf t => Inf (xorb s t)
  end.

(** IEEE division as numpy performs it: no exception, [0/0] is not-a-number
    and [x/0] is an infinity of the sign of [x]. *)
Definition div (x y : num) : num :=
  match x, y with
  | NaN, _ | _, NaN => NaN
  | Fin a, Fin b =>
      if qzero b then (if qzero a then NaN else Inf (qneg a))
      else Fin (Qred (a / b))
  | Fin _, Inf _ => Fin 0
  | Inf s, Fin b => Inf (xorb s (qneg b))
  | Inf _, Inf _ => NaN
  end.

(** [x > y]; every comparison with not-a-number is false. *)
Definition gtb (x y : num) : bool :=
  match x, y with
  | NaN, _ | _, NaN => false
  | Fin a, Fin b => negb (Qle_bool a b)
  | Inf s, Fin _ => negb s
  | Fin _, Inf t => t
  | Inf s, Inf t => negb s && t
  end.

(** [x >= y]. *)
Definition geb (x y : num) : bool :=
  match x, y with
  | NaN, _ | _, NaN => false
  | Fin a, Fin b => Qle_bool b a
  | Inf s, Fin _ => negb s
  | Fin _, Inf t => t
  | Inf s, Inf t => negb s || t
  end.

(** [x == y] in the sense of Python's [==]. *)
Definition eqb (x y : num) : bool :=
  match x, y with
  | Fin a, Fin b => Qeq_bool a b
  | Inf s, Inf t => Bool.eqb s t
  | _, _ => false
  end.

(** Nearest integer, ties to even. *)
Definition rint (q : Q) : Z :=
  let f := Qfloor q in
  match Qcompare (q - inject_Z f) (1 # 2) with
  | Lt => f
  | Gt => f + 1
  | Eq => if Z.even f then f else f + 1
  end.

(** [round(x, ndigits)]. *)
Definition round (x : num) (ndigits : Z) : num :=
  match x with
  | Fin q =>
      let p := inject_Z (10 ^ ndigits) in
      Fin (Qred (inject_Z (rint (q * p)) / p))
  | _ => x
  end.

End Num.

Import Num.

Declare Scope num_scope.
Delimit Scope num_scope with num.
Bind Scope num_scope with num.
Infix "+" := Num.add : num_scope.
Infix "-" := Num.sub : num_scope.
Infix "*" := Num.mul : num_scope.
Infix "/" := Num.div : num_scope.

(** Decimal literal [n / 10^k]. *)
Definition dec (n : Z) (k : Z) : num := Fin (Qred (inject_Z n / inject_Z (10 ^ k))).

(** ** Calendar dates

    The script only builds datetimes at midnight, so a datetime is its
    calendar date.  Ordinals, range checks and the addition of days follow
    the proleptic Gregorian arithmetic of Python's [datetime] module. *)

Module Datetime.

Record date := mkdate { year : Z; month : Z; day : Z }.

Definition MINYEAR : Z := 1.
Definition MAXYEAR : Z := 9999.
Definition _MAXORDINAL : Z := 3652059.

Definition _DAYS_IN_MONTH : list Z :=
  [-1; 31; 28; 31; 30; 31; 30; 31; 31; 30; 31; 30; 31].

Definition _DAYS_BEFORE_MONTH : list Z :=
  [-1; 0; 31; 59; 90; 120; 151; 181; 212; 243; 273; 304; 334].

Definition tbl (t : list Z) (i : Z) : Z := nth (Z.to_nat i) t 0.

Definition _is_leap (y : Z) : bool :=
  (y mod 4 =? 0) && (negb (y mod 100 =? 0) || (y mod 400 =? 0)).

Definition _days_before_year (y : Z) : Z :=
  let y := y - 1 in y * 365 + y / 4 - y / 100 + y / 400.

Definition _days_in_month (y m : Z) : Z :=
  if (m =? 2) && _is_leap y then 29 else tbl _DAYS_IN_MONTH m.

Definition _days_before_month (y m : Z) : Z :=
  tbl _DAYS_BEFORE_MONTH m + (if (2 <? m) && _is_leap y then 1 else 0).

Definition _ymd2ord (y m d : Z) : Z :=
  _days_before_year y + _days_before_month y m + d.

Definition _DI400Y : Z := 146097.
Definition _DI100Y : Z := 36524.
Definition _DI4Y : Z := 1461.

Definition _ord2ymd (n : Z) : date :=
  let n := n - 1 in
  let n400 := n / _DI400Y in
  let n := n mod _DI400Y in
  let y := n400 * 400 + 1 in
  let n100 := n / _DI100Y in
  let n := n mod _DI100Y in
  let n4 := n / _DI4Y in
  let n := n mod _DI4Y in
  let n1 := n / 365 in
  let n := n mod 365 in
  let y := y + n100 * 100 + n4 * 4 + n1 in
  if (n1 =? 4) || (n100 =? 4) then mkdate (y - 1) 12 31
  else
    let leapyear := (n1 =? 3) && (negb (n4 =? 24) || (n100 =? 3)) in
    let m := Z.shiftr (n + 50) 5 in
    let preceding :=
      tbl _DAYS_BEFORE_MONTH m + (if (2 <? m) && leapyear then 1 else 0) in
    if n <? preceding then
      let m := m - 1 in
      let preceding :=
        preceding
        - (tbl _DAYS_IN_MONTH m + (if (m =? 2) && leapyear then 1 else 0)) in
      mkdate y m (n - preceding + 1)
    else mkdate y m (n - preceding + 1).

(** [datetime(year, month, day)]: the constructor checks its fields. *)
Definition datetime (y m d : Z) : result date :=
  if negb ((MINYEAR <=? y) && (y <=? MAXYEAR)) then Raise ValueError
  else if negb ((1 <=? m) && (m <=? 12)) then Raise ValueError
  else if negb ((1 <=? d) && (d <=? _days_in_month y m)) then Raise ValueError
  else Ok (mkdate y m d).

Definition valid (t : date) : Prop := datetime (year t) (month t) (day t) = Ok t.

Definition toordinal (t : date) : Z := _ymd2ord (year t) (month t) (day t).

(** [t + timedelta(days=n)]. *)
Definition add_days (t : date) (n : Z) : result date :=
  let o := toordinal t + n in
  if (0 <? o) && (o <=? _MAXORDINAL) then Ok (_ord2ymd o)
  else Raise OverflowError.

(** [a <= b]: field by field, as tuples. *)
Definition leb (a b : date) : bool :=
  if year a <? year b then true
  else if year b <? year a then false
  else if month a <? month b then true
  else if month b <? month a then false
  else day a <=? day b.

Definition _MONTHNAMES : list string :=
  ["Jan"; "Feb"; "Mar"; "Apr"; "May"; "Jun";
   "Jul"; "Aug"; "Sep"; "Oct"; "Nov"; "Dec"]%string.

Definition ascii_lower (c : ascii) : ascii :=
  let n := N_of_ascii c in
  if (65 <=? n)%N && (n <=? 90)%N then ascii_of_N (n + 32) else c.

Fixpoint lower (s : string) : string :=
  match s with
  | EmptyString => EmptyString
  | String c s' => String (ascii_lower c) (lower s')
  end.

Fixpoint find_month (s : string) (names : list string) (i : Z) : option Z :=
  match names with
  | [] => None
  | n :: names' =>
      if String.eqb (lower n) s then Some i else find_month s names' (i + 1)
  end.

(** [datetime.strptime(s, "%b").month]: the abbreviated month name,
    matched without regard to case. *)
Definition strptime_b_month (s : string) : result Z :=
  match find_month (lower s) _MONTHNAMES 1 with
  | Some i => Ok i
  | None => Raise ValueError
  end.

(** [t.strftime("%b %Y")]. *)
Definition strftime_bY (t : date) : string :=
  (nth (Z.to_nat (month t - 1)) _MONTHNAMES "" +:+ " " +:+ pretty (year t))%string.

End Datetime.

Import Datetime.

(** ** Series helpers (pandas and numpy) *)

(** [Series.sum()]: missing values are skipped. *)
Definition Series_sum (s : list num) : num :=
  foldl Num.add (Fin 0) (filter (λ x, isnan x = false) s).

(** [Series.mean()]: mean of the values that are not missing. *)
Definition Series_mean (s : list num) : num :=
  let present := filter (λ x, isnan x = false) s in
  (foldl Num.add (Fin 0) present / of_Z (Z.of_nat (length present)))%num.

(** [a.dot(b)]: plain sum of products, missing values propagate. *)
Definition Series_dot (a b : list num) : num :=
  foldl Num.add (Fin 0) (zip_with Num.mul a b).

(** ** The progress bar

    [st.progress(value)] with a float takes a value between 0.0 and 1.0;
    a value outside is accepted only when [math.isclose] puts it at one
    of the two bounds, and raises otherwise. *)

(** [math.isclose(a, b, rel_tol=1e-9, abs_tol=1e-9)]. *)
Definition isclose (a b : Q) : bool :=
  Qle_bool (Qabs (a - b))
           (Qmax ((1 # 1000000000) * Qmax (Qabs a) (Qabs b)) (1 # 1000000000)).

Definition progress_accepts (v : Q) : bool :=
  (Qle_bool 0 v && Qle_bool v 1) || isclose v 0 || isclose v 1.

Definition is_Ok {A : Type} (r : result A) : bool :=
  match r with Ok _ => true | Raise _ => false end.

(** ** Holdings and quotes *)

(** A row of the cleaned table.  [Index] is the row's index label: the
    position the row had in the table as it was read, which the filter of
    line 28 keeps.  [Name] is [None] for a cell without text. *)
Record holding := mkholding {
  Index : Z;
  Slice : string;
  Name : option string;
  Value : num;
  Owned_quantity : num
}.

(** [df["Ticker"] = df["Slice"] + ".L"]. *)
Definition Ticker (h : holding) : string := (Slice h +:+ ".L")%string.

Record live_row := mklive {
  price : num;
  yield : num;
  target : option num;
  consensus : string
}.

Record row := mkrow {
  hold : holding;
  live : live_row;
  Market_Value : num;
  Unrealised : num;
  Weight : num
}.

Record event := mkevent {
  Date : date;
  ev_Ticker : string;
  Amount : num
}.

Section Providers.

(** The body of the [try] block of [get_live_price]: the request, the JSON
    decoding and the two look-ups, any of which may raise. *)
Variable yahoo_chart : string → result (num * num).

(** [get_analyst_and_yield] as a whole; its own [try]/[except] makes it
    total.  The result is [(consensus, target, yield_pct)]. *)
Variable get_analyst_and_yield : string → string * option num * num.

Definition get_live_price (ticker : string) : num * num :=
  match yahoo_chart ticker with
  | Ok (p, previous) => (round p 4, round previous 4)
  | Raise _ => (Fin 0, Fin 0)
  end.

(** One turn of the fetch loop: the dictionary appended to [prices]. *)
Definition fetch_row (h : holding) : live_row :=
  let '(p, prev) := get_live_price (Ticker h) in
  let '(rec, tgt, yield_pct) := get_analyst_and_yield (Slice h) in
  {| price := p; yield := (yield_pct / of_Z 100)%num;
     target := tgt; consensus := rec |}.

Definition market_value (h : holding) : num :=
  (price (fetch_row h) * Owned_quantity h)%num.

(** The value handed to the progress bar at the end of a turn:
    [(i+1)/len(df)], with [i] the index label of the row. *)
Definition progress_value (n : Z) (h : holding) : Q :=
  inject_Z (Index h + 1) / inject_Z n.

(** One turn of the fetch loop: the dictionary is appended, then the
    progress bar is moved, which raises when the value is out of range. *)
Definition fetch_body (n : Z) (h : holding) (prices : list live_row)
  : result (list live_row) :=
  let prices := prices ++ [fetch_row h] in
  if progress_accepts (progress_value n h) then Ok prices
  else Raise StreamlitAPIException.

(** The derived columns of the concatenated frame; [reset_index] and
    [concat] pair the rows of the two frames by position. *)
Definition with_live (df : list holding) (prices : list live_row)
  : list row :=
  let mv := λ h l, (price l * Owned_quantity h)%num in
  let total := Series_sum (zip_with mv df prices) in
  zip_with (λ h l,
              {| hold := h; live := l;
                 Market_Value := mv h l;
                 Unrealised := (mv h l - Value h)%num;
                 Weight := (mv h l / total)%num |}) df prices.

(** The fetch loop, the [concat] and the three derived columns.  With no
    holding at all [prices] is empty, the concatenated frame has no
    ["price"] column and [df["price"]] raises. *)
Definition enrich (df : list holding) : result (list row) :=
  prices ← for_each (fetch_body (Z.of_nat (length df))) df [];
  match prices with
  | [] => Raise KeyError
  | _ => Ok (with_live df prices)
  end.

End Providers.

Definition total_now (df : list row) : num := Series_sum (map Market_Value df).
Definition total_cost (df : list row) : num :=
  Series_sum (map (λ r, Value (hold r)) df).

(** ** Dividend forecast *)

Definition known_div_schedule : gmap string (list string) :=
  list_to_map
    [("BP",   ["Mar"; "Jun"; "Sep"; "Dec"]);
     ("AV",   ["May"; "Oct"]);
     ("NG",   ["Jun"; "Dec"]);
     ("MNG",  ["Apr"; "Sep"]);
     ("LGEN", ["Mar"; "Jun"; "Sep"; "Nov"]);
     ("SHEL", ["Mar"; "Jun"; "Sep"; "Dec"]);
     ("RIO",  ["Mar"; "Sep"]);
     ("HSBA", ["Mar"; "Jun"; "Sep"; "Dec"]);
     ("BATS", ["Mar"; "Jun"; "Sep"; "Dec"]);
     ("IMB",  ["Mar"; "Sep"]);
     ("GLEN", ["Jun"; "Dec"])]%string.

(** The two statements that choose the year of a payment. *)
Definition resolve_year (today : date) (month_num : Z) : Z :=
  let y := if month today <? month_num then year today else year today + 1 in
  if month_num <? month today then y + 1 else y.

Definition last_annual (r : row) : num :=
  (price (live r) *
   (if gtb (yield (live r)) (Fin 0) then yield (live r) else dec 4 2))%num.

Definition quarterly (r : row) : num := (last_annual r / of_Z 4)%num.

(** The unrounded amount of one payment of a holding paying in [months]. *)
Definition amount (r : row) (months : list string) : num :=
  (quarterly r * Owned_quantity (hold r)
   * (of_Z 4 / of_Z (Z.of_nat (length months))))%num.

(** Body of the inner loop, for the month label [m]. *)
Definition month_body (today : date) (r : row) (months : list string)
    (m : string) (future_divs : list event) : result (list event) :=
  month_num ← strptime_b_month m;
  pay_date ← datetime (resolve_year today month_num) month_num 15;
  if Datetime.leb today pay_date then
    limit ← add_days today 365;
    if Datetime.leb pay_date limit then
      Ok (future_divs ++
            [{| Date := pay_date; ev_Ticker := Slice (hold r);
                Amount := round (amount r months) 2 |}])
    else Ok future_divs
  else Ok future_divs.

(** Body of the outer loop, for the row [r]. *)
Definition row_body (today : date) (r : row) (future_divs : list event)
  : result (list event) :=
  match known_div_schedule !! Slice (hold r) with
  | Some (m0 :: ms) =>
      for_each (month_body today r (m0 :: ms)) (m0 :: ms) future_divs
  | Some [] | None => Ok future_divs
  end.

Definition future_divs_at (today : date) (df : list row) : result (list event) :=
  for_each (row_body today) df [].

(** The reference date is fixed in the script. *)
Definition today : date := mkdate 2025 11 21.

Definition future_divs (df : list row) : result (list event) :=
  future_divs_at today df.

(** ** Headline metrics *)

(** What an f-string field may hold here, and the text it renders to: the
    text of a formatted number is kept as the number and its format. *)
Inductive pyobj :=
| PyFloat (x : num)
| PySeries (xs : list num).

Inductive text :=
| Lit (s : string)
| Formatted (x : num) (spec : string).

(** [format(o, spec)] for a non-empty [spec]: a Series has no [__format__]
    of its own and the inherited one rejects every non-empty format. *)
Definition format (o : pyobj) (spec : string) : result text :=
  match o with
  | PyFloat x => Ok (Formatted x spec)
  | PySeries _ => Raise TypeError
  end.

(** Value shown by [c2.metric("Est. Forward Yield", ...)]. *)
Definition est_forward_yield (df : list row) : num :=
  (Series_dot (map Market_Value df) (map (λ r, yield (live r)) df)
   / total_now df)%num.

Definition c2_metric (df : list row) : result text :=
  format (PyFloat (est_forward_yield df)) ".2%".

(** The expression inside the f-string of [c3.metric]: a Series times a
    scalar is a Series. *)
Definition expected_divs_expr (df : list row) : pyobj :=
  let mean_yield := Series_mean (map (λ r, yield (live r)) df) in
  PySeries (map (λ r, (Market_Value r * mean_yield)%num) df).

Definition c3_metric (df : list row) : result (list text) :=
  if gtb (total_now df) (Fin 0) then
    t ← format (expected_divs_expr df) ",.0f"; Ok [Lit "£"; t]
  else Ok [Lit "£0"].

(** ** Monthly bucketing *)

Definition label_le (a b : string) : Prop := String.leb a b = true.

Global Instance label_le_dec a b : Decision (label_le a b).
Proof. unfold label_le. apply _. Defined.

(** Group keys of a [groupby]: the distinct keys in ascending order. *)
Definition group_keys (keys : list string) : list string :=
  merge_sort label_le (elements (list_to_set keys : gset string)).

(** [values.groupby(keys).sum()] as the list of its (key, total) items. *)
Definition groupby_sum (items : list (string * num)) : list (string * num) :=
  map (λ k, (k, Series_sum (map snd (filter (λ it, it.1 = k) items))))
      (group_keys (map fst items)).

Definition monthly (div_df : list event) : list (string * num) :=
  groupby_sum (map (λ e, (strftime_bY (Date e), Amount e)) div_df).

(** ** Monthly bucketing in double precision

    The amounts of the forecast are Python floats, so the amount column of
    [div_df] is a float64 column and the totals of [groupby(...).sum()]
    are computed by pandas' [group_sum]: the values of a group are added
    in row order with Kahan's compensation, missing values are skipped. *)

Record event_f64 := mkevent_f64 {
  Date_f64 : date;
  Ticker_f64 : string;
  Amount_f64 : float
}.

(** One turn of the loop of [group_sum] for the group of the row: [st]
    holds [sumx] and [compensation] of the group.  A compensation that is
    not-a-number (the value was infinite) is put back to 0. *)
Definition kahan_step (st : float * float) (val : float) : float * float :=
  let '(sumx, compensation) := st in
  if PrimFloat.is_nan val then st
  else
    let y := (val - compensation)%float in
    let t := (sumx + y)%float in
    let c := (t - sumx - y)%float in
    (t, if PrimFloat.is_nan c then 0%float else c).

Definition group_sum (vals : list float) : float :=
  (foldl kahan_step (0%float, 0%float) vals).1.

(** [values.groupby(keys).agg()] for an aggregation [agg] of the values of
    a group, taken in row order. *)
Definition groupby_agg {A B : Type} (agg : list A → B)
    (items : list (string * A)) : list (string * B) :=
  map (λ k, (k, agg (map snd (filter (λ it, it.1 = k) items))))
      (group_keys (map fst items)).

Definition monthly_f64 (div_df : list event_f64) : list (string * float) :=
  groupby_agg group_sum
    (map (λ e, (strftime_bY (Date_f64 e), Amount_f64 e)) div_df).

(** ** The run of the script

    From the normalised holdings to what is handed to the display, in the
    order of the script; an exception ends the run.  [sort_values] stands
    for [DataFrame.sort_values("Date")]: which of two rows of equal date it
    puts first is numpy's choice, so the sort is a parameter of the run. *)

Record dashboard_out := mkout {
  out_df : list row;
  out_div_df : list event;
  out_c1 : num * num;
  out_c2 : text;
  out_c3 : list text;
  out_monthly : option (list (string * num))
}.

Definition dashboard (yahoo_chart : string → result (num * num))
    (get_analyst_and_yield : string → string * option num * num)
    (sort_values : list event → list event)
    (df : list holding) : result dashboard_out :=
  rows ← enrich yahoo_chart get_analyst_and_yield df;
  future_divs ← future_divs rows;
  let div_df :=
    match future_divs with [] => [] | _ => sort_values future_divs end in
  c2 ← c2_metric rows;
  c3 ← c3_metric rows;
  Ok {| out_df := rows;
        out_div_df := div_df;
        out_c1 := (total_now rows, (total_now rows - total_cost rows)%num);
        out_c2 := c2;
        out_c3 := c3;
        out_monthly :=
          match div_df with [] => None | _ => Some (monthly div_df) end |}.

(** ** Holdings normaliser

    The table as [read_csv] leaves it: a numeric cell is a number (an empty
    one is not-a-number), any other cell is text.  How pandas reads a number
    out of a text cell is left as a parameter.  The [Slice] column is text;
    a [Name] cell is text or, when [read_csv] left no text in it, [None].
    Rows are labelled by position, from 0. *)

Inductive cell :=
| Number (x : num)
| Text (s : string).

Record raw_row := mkraw {
  raw_Slice : string;
  raw_Name : option string;
  raw_Value : cell;
  raw_Owned_quantity : cell
}.

Definition newline : ascii := "010"%char.

(** Length of the part of [s] that ends with the last [")"] of its first
    line, if that line has one. *)
Fixpoint last_close (s : string) : option nat :=
  match s with
  | EmptyString => None
  | String c s' =>
      if Ascii.eqb c newline then None
      else match last_close s' with
           | Some n => Some (S n)
           | None => if Ascii.eqb c ")" then Some 1%nat else None
           end
  end.

(** Length of the match of the pattern [" \(.+\)"] at the start of [s]:
    a space, an opening parenthesis, as many characters of the line as
    possible but at least one, and a closing parenthesis. *)
Definition match_len (s : string) : option nat :=
  match s with
  | String " " (String "(" (String c rest)) =>
      if Ascii.eqb c newline then None
      else match last_close rest with
           | Some n => Some (3 + n)%nat
           | None => None
           end
  | _ => None
  end.

(** [re.sub] with an empty replacement: matches are taken from left to
    right and dropped; [skip] counts the characters of the current match
    that are still to be dropped. *)
Fixpoint sub_paren (skip : nat) (s : string) : string :=
  match s with
  | EmptyString => EmptyString
  | String c s' =>
      match skip with
      | S k => sub_paren k s'
      | O =>
          match match_len (String c s') with
          | Some n => sub_paren (n - 1) s'
          | None => String c (sub_paren 0 s')
          end
      end
  end.

(** [name.str.replace(r" \(.+\)", "", regex=True)]. *)
Definition str_replace_paren (s : string) : string := sub_paren 0 s.

Section Normaliser.

Variable parse_float : string → option num.

(** [pd.to_numeric(column, errors='coerce')] on one cell. *)
Definition to_numeric_coerce (c : cell) : num :=
  match c with
  | Number x => x
  | Text s => match parse_float s with Some x => x | None => NaN end
  end.

(** The rows with the index labels [read_csv] gives them. *)
Definition labelled (df : list raw_row) : list (nat * raw_row) :=
  imap (λ i r, (i, r)) df.

(** Whether the [Name] column holds objects, so that it has the [.str]
    accessor: it does when the table has no row or some cell is text, and
    is a numeric column otherwise. *)
Definition name_is_object (df : list raw_row) : bool :=
  match df with
  | [] => true
  | _ => existsb (λ r, bool_decide (is_Some (raw_Name r))) df
  end.

(** Lines 28 to 32: the "Total" rows are dropped, the rows kept keeping
    their labels, the two numeric columns are coerced and the display name
    is stripped ([Ticker] is derived from [Slice]); [.str] on a numeric
    column raises. *)
Definition normalise (df : list raw_row) : result (list holding) :=
  let kept := filter (λ ir, raw_Slice ir.2 ≠ "Total"%string) (labelled df) in
  if name_is_object df then
    Ok (map (λ ir, {| Index := Z.of_nat ir.1;
                      Slice := raw_Slice ir.2;
                      Name := str_replace_paren <$> raw_Name ir.2;
                      Value := to_numeric_coerce (raw_Value ir.2);
                      Owned_quantity :=
                        to_numeric_coerce (raw_Owned_quantity ir.2) |}) kept)
  else Raise AttributeError.

End Normaliser.

(** ** Analyst data and dividend yield

    The two replies of the fundamentals service are taken decoded and well
    typed: a list of rating records and a list of quote records, or the
    exception the request or the decoding raised.  Replies of any other
    shape are outside the model. *)

Record rating_entry := mkrating {
  recommendation : string;
  priceTarget : option num
}.

Record quote_entry := mkquote {
  q_price : num;
  lastDiv : option num
}.

Section Fundamentals.

Variable fmp_rating : string → result (list rating_entry).
Variable fmp_quote : string → result (list quote_entry).

(** [str.title] of the recommendation text. *)
Variable title : string → string.

(** The yield computed from the first record of the quote reply. *)
Definition quote_yield (quote : list quote_entry) : num :=
  match quote with
  | q0 :: _ =>
      let div := (default (of_Z 0) (lastDiv q0) * of_Z 4)%num in
      if gtb (q_price q0) (Fin 0) then (div / q_price q0)%num else of_Z 0
  | [] => of_Z 0
  end.

Definition get_analyst_and_yield (ticker_symbol : string)
  : string * option num * num :=
  match fmp_rating ticker_symbol with
  | Raise _ => ("N/A"%string, None, of_Z 0)
  | Ok rating =>
      let '(rec, tgt) :=
        match rating with
        | r0 :: _ => (title (recommendation r0), priceTarget r0)
        | [] => ("N/A"%string, None)
        end in
      match fmp_quote ticker_symbol with
      | Raise _ => ("N/A"%string, None, of_Z 0)
      | Ok quote => (rec, tgt, round (quote_yield quote * of_Z 100) 2)
      end
  end.

End Fundamentals.

(** * Auxiliary definitions

    Reformulations of the loops used to state and prove the properties,
    and the concrete portfolios the properties are exercised on. *)

(** [str.title] on ASCII text, for the worked examples: a letter is put in
    upper case when it starts a run of letters and in lower case
    otherwise. *)
Definition is_upper (c : ascii) : bool :=
  let n := N_of_ascii c in (65 <=? n)%N && (n <=? 90)%N.

Definition is_lower (c : ascii) : bool :=
  let n := N_of_ascii c in (97 <=? n)%N && (n <=? 122)%N.

Definition ascii_upper (c : ascii) : ascii :=
  if is_lower c then ascii_of_N (N_of_ascii c - 32) else c.

Fixpoint title_from (prev_cased : bool) (s : string) : string :=
  match s with
  | EmptyString => EmptyString
  | String c s' =>
      if is_upper c || is_lower c then
        String (if prev_cased then ascii_lower c else ascii_upper c)
               (title_from true s')
      else String c (title_from false s')
  end.

Definition ascii_title (s : string) : string := title_from false s.

(** What one scheduled month adds, independently of what was collected. *)
Definition month_events (today : date) (r : row) (months : list string)
    (m : string) : result (list event) :=
  month_body today r months m [].

Definition extend (acc : list event) (res : result (list event))
  : result (list event) :=
  match res with Ok l => Ok (acc ++ l) | Raise e => Raise e end.

(** Concatenation of the contributions, stopping at the first exception. *)
Fixpoint collect (rs : list (result (list event))) : result (list event) :=
  match rs with
  | [] => Ok []
  | r :: rs' => match r with Ok l => extend l (collect rs') | Raise e => Raise e end
  end.

(** The window test of one month label, without the holding. *)
Definition pay_date_of (today : date) (m : string) : result (option date) :=
  month_num ← strptime_b_month m;
  pay_date ← datetime (resolve_year today month_num) month_num 15;
  if Datetime.leb today pay_date then
    limit ← add_days today 365;
    Ok (if Datetime.leb pay_date limit then Some pay_date else None)
  else Ok None.

Definition payment (r : row) (months : list string) (d : date) : event :=
  {| Date := d; ev_Ticker := Slice (hold r);
     Amount := round (amount r months) 2 |}.

(** The events of one scheduled month and of one row, as lists. *)
Definition month_payments (today : date) (r : row) (months : list string)
    (m : string) : list event :=
  match pay_date_of today m with
  | Ok (Some d) => [payment r months d]
  | _ => []
  end.

Definition row_payments (today : date) (r : row) : list event :=
  match known_div_schedule !! Slice (hold r) with
  | Some months => concat (map (month_payments today r months) months)
  | None => []
  end.

(** The row built for the holding [h] once the total is known. *)
Definition enrich_row (yahoo_chart : string → result (num * num))
    (get_analyst_and_yield : string → string * option num * num)
    (total : num) (h : holding) : row :=
  {| hold := h; live := fetch_row yahoo_chart get_analyst_and_yield h;
     Market_Value := market_value yahoo_chart get_analyst_and_yield h;
     Unrealised :=
       (market_value yahoo_chart get_analyst_and_yield h - Value h)%num;
     Weight := (market_value yahoo_chart get_analyst_and_yield h / total)%num |}.

Definition portfolio_total (yahoo_chart : string → result (num * num))
    (get_analyst_and_yield : string → string * option num * num)
    (df : list holding) : num :=
  Series_sum (map (market_value yahoo_chart get_analyst_and_yield) df).

(** The payment dates of a schedule that pass the window test. *)
Definition months_in_window (today : date) (months : list string) : list date :=
  concat (map (λ m, match pay_date_of today m with
                    | Ok (Some d) => [d]
                    | _ => []
                    end) months).

Global Instance date_eq_dec : EqDecision date.
Proof. solve_decision. Defined.

(** Whether the character [c] occurs in [s]. *)
Fixpoint has_char (c : ascii) (s : string) : bool :=
  match s with
  | EmptyString => false
  | String c' s' => Ascii.eqb c c' || has_char c s'
  end.

(** The rational a finite number stands for. *)
Definition fin_val (x : num) : Q := match x with Fin q => q | _ => 0%Q end.

(** Exact sum of a list of rationals. *)
Definition Qsum (qs : list Q) : Q := foldr Qplus 0%Q qs.

(** A finite, non-negative number. *)
Definition nonneg (x : num) : Prop := ∃ q, x = Fin q ∧ (0 <= q)%Q.

(** ** Worked portfolios

    The provider quotes BP at 0.50 with a trailing yield of 25 per cent and
    fails on every other request.  The holdings are one share of BP, a
    hundred shares of VOD, and a VOD row whose quantity is missing. *)

Definition demo_chart (ticker : string) : result (num * num) :=
  if String.eqb ticker "BP.L" then Ok (Fin (1 # 2), Fin (1 # 2))
  else Raise ValueError.

Definition demo_fundamentals (ticker : string) : string * option num * num :=
  if String.eqb ticker "BP" then ("Buy"%string, None, of_Z 25)
  else ("N/A"%string, None, of_Z 0).

Definition bp_holding : holding :=
  {| Index := 0; Slice := "BP"; Name := Some "BP"; Value := Fin (2 # 5);
     Owned_quantity := of_Z 1 |}.

Definition bp_row : row :=
  {| hold := bp_holding;
     live := {| price := Fin (1 # 2); yield := Fin (1 # 4);
                target := None; consensus := "Buy" |};
     Market_Value := Fin (1 # 2);
     Unrealised := Fin (1 # 10);
     Weight := Fin 1 |}.

Definition vod_holding : holding :=
  {| Index := 0; Slice := "VOD"; Name := Some "Vodafone"; Value := of_Z 70;
     Owned_quantity := of_Z 100 |}.

Definition vod_row : row :=
  {| hold := vod_holding;
     live := {| price := Fin 0; yield := Fin 0;
                target := None; consensus := "N/A" |};
     Market_Value := Fin 0;
     Unrealised := of_Z (-70);
     Weight := NaN |}.

Definition quarterly_months : list string := ["Mar"; "Jun"; "Sep"; "Dec"]%string.

(** The VOD row beside the BP row: its weight is 0 of a total of 0.50. *)
Definition vod_row_beside_bp : row :=
  {| hold := vod_holding;
     live := {| price := Fin 0; yield := Fin 0;
                target := None; consensus := "N/A" |};
     Market_Value := Fin 0;
     Unrealised := of_Z (-70);
     Weight := Fin 0 |}.

(** The BP holding as the second row of a table. *)
Definition bp_second : holding :=
  {| Index := 1; Slice := "BP"; Name := Some "BP"; Value := Fin (2 # 5);
     Owned_quantity := of_Z 1 |}.

Definition bp_second_row : row :=
  {| hold := bp_second;
     live := {| price := Fin (1 # 2); yield := Fin (1 # 4);
                target := None; consensus := "Buy" |};
     Market_Value := Fin (1 # 2);
     Unrealised := Fin (1 # 10);
     Weight := Fin 1 |}.

(** An uploaded table whose first row is the "Total" row, and the one
    holding the filter leaves of it, with the label 1. *)
Definition total_raw : raw_row :=
  {| raw_Slice := "Total"; raw_Name := None;
     raw_Value := Number (of_Z 70); raw_Owned_quantity := Number NaN |}.

Definition vod_raw : raw_row :=
  {| raw_Slice := "VOD"; raw_Name := Some "Vodafone (VOD)";
     raw_Value := Number (of_Z 70); raw_Owned_quantity := Number (of_Z 100) |}.

Definition vod_below_total : holding :=
  {| Index := 1; Slice := "VOD"; Name := Some "Vodafone"; Value := of_Z 70;
     Owned_quantity := of_Z 100 |}.

(** A fundamentals service that knows BP only. *)
Definition fmp_rating_demo (t : string) : result (list rating_entry) :=
  if String.eqb t "BP" then Ok [mkrating "strong buy" (Some (of_Z 5))]
  else Raise ValueError.

Definition fmp_quote_demo (t : string) : result (list quote_entry) :=
  if String.eqb t "BP" then Ok [mkquote (of_Z 4) (Some (dec 5 2))]
  else Raise ValueError.

(** A hundred BP shares whose quote was unavailable. *)
Definition bp_unquoted_row : row :=
  {| hold := {| Index := 0; Slice := "BP"; Name := Some "BP"; Value := of_Z 70;
                Owned_quantity := of_Z 100 |};
     live := {| price := Fin 0; yield := Fin 0;
                target := None; consensus := "N/A" |};
     Market_Value := Fin 0;
     Unrealised := of_Z (-70);
     Weight := NaN |}.

(** A holding whose quantity cell did not parse. *)
Definition blank_holding : holding :=
  {| Index := 0; Slice := "VOD"; Name := Some "Vodafone"; Value := of_Z 70;
     Owned_quantity := NaN |}.

Definition blank_row : row :=
  {| hold := blank_holding;
     live := {| price := Fin 0; yield := Fin 0;
                target := None; consensus := "N/A" |};
     Market_Value := NaN;
     Unrealised := NaN;
     Weight := NaN |}.

(** The float64 number nearest to [n] hundredths: what [round(x, 2)]
    returns for an amount of [n] pence. *)
Definition pence (n : float) : float := (n / 100)%float.

(** Two payments in January 2026, as floats. *)
Definition jan_events_f64 : list event_f64 :=
  [{| Date_f64 := mkdate 2026 1 15; Ticker_f64 := "AAA";
      Amount_f64 := pence 1000%float |};
   {| Date_f64 := mkdate 2026 1 15; Ticker_f64 := "BBB";
      Amount_f64 := pence 1525%float |}].

(** Three payments on 15 December 2025, of 161.92, 75.42 and 325.47, in
    two orders. *)
Definition dec_events_f64 : list event_f64 :=
  [{| Date_f64 := mkdate 2025 12 15; Ticker_f64 := "BP";
      Amount_f64 := pence 16192%float |};
   {| Date_f64 := mkdate 2025 12 15; Ticker_f64 := "NG";
      Amount_f64 := pence 7542%float |};
   {| Date_f64 := mkdate 2025 12 15; Ticker_f64 := "SHEL";
      Amount_f64 := pence 32547%float |}].

Definition dec_events_f64' : list event_f64 :=
  [{| Date_f64 := mkdate 2025 12 15; Ticker_f64 := "NG";
      Amount_f64 := pence 7542%float |};
   {| Date_f64 := mkdate 2025 12 15; Ticker_f64 := "SHEL";
      Amount_f64 := pence 32547%float |};
   {| Date_f64 := mkdate 2025 12 15; Ticker_f64 := "BP";
      Amount_f64 := pence 16192%float |}].

(** Two payments in January 2026. *)
Definition jan_events : list event :=
  [{| Date := mkdate 2026 1 15; ev_Ticker := "AAA"; Amount := Fin (10 # 1) |};
   {| Date := mkdate 2026 1 15; ev_Ticker := "BBB"; Amount := Fin (61 # 4) |}].

(** Evaluates the table look-ups and month tests at a literal month. *)
Ltac eval_month_tables :=
  repeat match goal with
  | |- context [tbl ?t ?k] =>
      let v := eval vm_compute in (tbl t k) in change (tbl t k) with v
  | |- context [?k =? 2] =>
      let v := eval vm_compute in (k =? 2) in change (k =? 2) with v
  | |- context [2 <? ?k] =>
      let v := eval vm_compute in (2 <? k) in change (2 <? k) with v
  end.

(** Evaluates a look-up in the table of month names. *)
Ltac eval_month_name :=
  repeat match goal with
  | |- context [nth ?i _MONTHNAMES ?d] =>
      let v := eval vm_compute in (nth i _MONTHNAMES d) in
      change (nth i _MONTHNAMES d) with v
  end.

(** * Properties *)

(** ** Calendar arithmetic *)

Section DateFacts.

Lemma days_before_year_mono (a b : Z) :
  a ≤ b → _days_before_year a ≤ _days_before_year b.
Proof.
  intros Hab. unfold _days_before_year.
  Z.div_mod_to_equations. lia.
Qed.

Lemma days_before_year_step (y : Z) :
  _days_before_year y + 365 ≤ _days_before_year (y + 1).
Proof.
  unfold _days_before_year.
  replace (y + 1 - 1) with (y - 1 + 1) by lia.
  Z.div_mod_to_equations. lia.
Qed.

(** The year computed from an ordinal has started by that day. *)
Lemma ord2ymd_year_started (n : Z) :
  0 < n → _days_before_year (year (_ord2ymd n)) < n.
Proof.
  intros Hn. unfold _ord2ymd, _DI400Y, _DI100Y, _DI4Y.
  set (n0 := n - 1).
  set (n400 := n0 / 146097). set (r1 := n0 mod 146097).
  set (n100 := r1 / 36524). set (r2 := r1 mod 36524).
  set (n4 := r2 / 1461). set (r3 := r2 mod 1461).
  set (n1 := r3 / 365). set (r4 := r3 mod 365).
  assert (H0 : 0 ≤ n0 ∧ n = n0 + 1) by (unfold n0; lia).
  assert (E1 : n0 = 146097 * n400 + r1 ∧ 0 ≤ r1 < 146097)
    by (unfold n400, r1; Z.div_mod_to_equations; lia).
  assert (E2 : r1 = 36524 * n100 + r2 ∧ 0 ≤ r2 < 36524)
    by (unfold n100, r2; Z.div_mod_to_equations; lia).
  assert (E3 : r2 = 1461 * n4 + r3 ∧ 0 ≤ r3 < 1461)
    by (unfold n4, r3; Z.div_mod_to_equations; lia).
  assert (E4 : r3 = 365 * n1 + r4 ∧ 0 ≤ r4 < 365)
    by (unfold n1, r4; Z.div_mod_to_equations; lia).
  assert (B : 0 ≤ n400 ∧ 0 ≤ n100 ≤ 4 ∧ 0 ≤ n4 ≤ 24 ∧ 0 ≤ n1 ≤ 4) by lia.
  clearbody n400 r1 n100 r2 n4 r3 n1 r4 n0.
  assert (Y : ∀ y, y = 400 * n400 + 100 * n100 + 4 * n4 + n1 →
              n1 ≤ 3 → n100 ≤ 3 → _days_before_year (y + 1) < n).
  { intros y -> ? ?. unfold _days_before_year.
    Z.div_mod_to_equations. lia. }
  destruct (n1 =? 4) eqn:Hn1; [apply Z.eqb_eq in Hn1|apply Z.eqb_neq in Hn1].
  - cbn [orb year].
    assert (n100 ≤ 3) by lia.
    unfold _days_before_year. Z.div_mod_to_equations. lia.
  - destruct (n100 =? 4) eqn:Hn100;
      [apply Z.eqb_eq in Hn100|apply Z.eqb_neq in Hn100].
    + cbn [orb year]. unfold _days_before_year. Z.div_mod_to_equations. lia.
    + cbn [orb]. cbv zeta.
      match goal with
      | |- context [if ?c then mkdate _ _ _ else _] => destruct c
      end; cbn [year];
        (replace (n400 * 400 + 1 + n100 * 100 + n4 * 4 + n1)
           with (400 * n400 + 100 * n100 + 4 * n4 + n1 + 1) by lia;
         apply Y; [reflexivity | lia | lia]).
Qed.

(** A day before the first of January of year [y] has a year below [y]. *)
Lemma ord2ymd_year_before (n y : Z) :
  0 < n → n ≤ _days_before_year y → year (_ord2ymd n) < y.
Proof.
  intros Hn Hle.
  destruct (Z_lt_le_dec (year (_ord2ymd n)) y) as [|Hge]; [done|].
  pose proof (days_before_year_mono _ _ Hge).
  pose proof (ord2ymd_year_started n Hn). lia.
Qed.

Lemma valid_fields (t : date) :
  valid t →
  1 ≤ year t ≤ 9999 ∧ 1 ≤ month t ≤ 12 ∧ 1 ≤ day t ≤ _days_in_month (year t) (month t).
Proof.
  unfold valid, datetime, MINYEAR, MAXYEAR.
  repeat (case_match; try discriminate); intros _.
  repeat match goal with
  | H : negb _ = false |- _ => apply negb_false_iff in H
  | H : _ && _ = true |- _ => apply andb_true_iff in H as [? ?]
  end. lia.
Qed.

(** A valid date lies inside its year. *)
Lemma toordinal_in_year (t : date) :
  valid t →
  _days_before_year (year t) < toordinal t ≤ _days_before_year (year t + 1).
Proof.
  intros Hv. destruct (valid_fields t Hv) as (Hy & Hm & Hd).
  destruct t as [y m d]; cbn [year month day] in *.
  unfold toordinal, _ymd2ord; cbn [year month day].
  assert (Hin : 0 ≤ _days_before_month y m ∧
                _days_before_month y m + _days_in_month y m
                ≤ _days_before_year (y + 1) - _days_before_year y).
  { assert (Hm' : m = 1 ∨ m = 2 ∨ m = 3 ∨ m = 4 ∨ m = 5 ∨ m = 6 ∨ m = 7 ∨
                  m = 8 ∨ m = 9 ∨ m = 10 ∨ m = 11 ∨ m = 12) by lia.
    unfold _days_before_month, _days_in_month, _is_leap, _days_before_year.
    replace (y + 1 - 1) with (y - 1 + 1) by lia.
    destruct (y mod 4 =? 0) eqn:E4; destruct (y mod 100 =? 0) eqn:E100;
      destruct (y mod 400 =? 0) eqn:E400;
      repeat match goal with
      | H : (_ =? _) = true |- _ => apply Z.eqb_eq in H
      | H : (_ =? _) = false |- _ => apply Z.eqb_neq in H
      end;
      repeat destruct Hm' as [-> | Hm']; try subst m;
      eval_month_tables; cbn [andb orb negb];
      Z.div_mod_to_equations; lia. }
  lia.
Qed.

End DateFacts.

(** ** The dividend loop *)

Section Scheduler.

Lemma bind_Ok {A B} (m : result A) (k : A → result B) (b : B) :
  m ≫= k = Ok b ↔ ∃ a, m = Ok a ∧ k a = Ok b.
Proof.
  destruct m as [a|e]; cbn; split.
  - eauto.
  - by intros (? & [= <-] & ?).
  - discriminate.
  - by intros (? & [=] & ?).
Qed.

Lemma month_body_extend today r months m acc :
  month_body today r months m acc = extend acc (month_events today r months m).
Proof.
  unfold month_events, month_body.
  destruct (strptime_b_month m) as [k|]; cbn; [|done].
  destruct (datetime _ k 15) as [p|]; cbn; [|done].
  destruct (Datetime.leb today p); cbn; [|by rewrite app_nil_r].
  destruct (add_days today 365) as [lim|]; cbn; [|done].
  destruct (Datetime.leb p lim); cbn; by rewrite ?app_nil_r.
Qed.

Lemma extend_app acc l res : extend (acc ++ l) res = extend acc (extend l res).
Proof. destruct res; cbn; by rewrite ?app_assoc. Qed.

Lemma for_each_month_extend today r months ms acc :
  for_each (month_body today r months) ms acc
  = extend acc (for_each (month_body today r months) ms []).
Proof.
  revert acc. induction ms as [|m ms IH]; intros acc; cbn.
  - by rewrite app_nil_r.
  - rewrite (month_body_extend _ _ _ _ acc), (month_body_extend _ _ _ _ []).
    destruct (month_events today r months m) as [l|]; cbn; [|done].
    rewrite (IH (acc ++ l)), (IH l). by rewrite extend_app.
Qed.

Lemma row_body_extend today r acc :
  row_body today r acc = extend acc (row_body today r []).
Proof.
  unfold row_body. destruct (known_div_schedule !! _) as [[|m0 ms]|].
  - cbn. by rewrite app_nil_r.
  - apply for_each_month_extend.
  - cbn. by rewrite app_nil_r.
Qed.

Lemma find_month_range (s : string) (names : list string) (i k : Z) :
  find_month s names i = Some k → i ≤ k < i + Z.of_nat (length names).
Proof.
  revert i. induction names as [|n names IH]; intros i; cbn [find_month].
  - discriminate.
  - destruct (String.eqb _ _).
    + intros [= <-]. cbn [length]. lia.
    + intros H. apply IH in H. cbn [length]. lia.
Qed.

(** The month number of a recognised label. *)
Lemma strptime_b_month_range (m : string) (k : Z) :
  strptime_b_month m = Ok k → 1 ≤ k ≤ 12.
Proof.
  unfold strptime_b_month.
  destruct (find_month _ _ 1) as [i|] eqn:Hf; [|done].
  intros [= <-]. apply find_month_range in Hf. cbn in Hf. lia.
Qed.

Lemma days_in_month_ge_28 (y m : Z) : 1 ≤ m ≤ 12 → 28 ≤ _days_in_month y m.
Proof.
  intros Hm. unfold _days_in_month.
  destruct (_ && _); [lia|].
  assert (Hm' : m = 1 ∨ m = 2 ∨ m = 3 ∨ m = 4 ∨ m = 5 ∨ m = 6 ∨ m = 7 ∨
                m = 8 ∨ m = 9 ∨ m = 10 ∨ m = 11 ∨ m = 12) by lia.
  repeat destruct Hm' as [-> | Hm']; try subst m; by vm_compute.
Qed.

(** The fifteenth of a month of an admissible year is a date. *)
Lemma datetime_15 (y m : Z) :
  1 ≤ m ≤ 12 →
  datetime y m 15
  = if (MINYEAR <=? y) && (y <=? MAXYEAR) then Ok (mkdate y m 15)
    else Raise ValueError.
Proof.
  intros Hm. unfold datetime.
  destruct ((MINYEAR <=? y) && (y <=? MAXYEAR)); cbn [negb]; [|done].
  pose proof (days_in_month_ge_28 y m Hm).
  destruct (Z.leb_spec 1 m), (Z.leb_spec m 12); try lia.
  destruct (Z.leb_spec 15 (_days_in_month y m)); try lia.
  reflexivity.
Qed.

Lemma resolve_year_compare (today : date) (month_num : Z) :
  resolve_year today month_num
  = match month_num ?= month today with
    | Gt => year today
    | Eq => year today + 1
    | Lt => year today + 2
    end.
Proof.
  unfold resolve_year.
  destruct (Z.compare_spec month_num (month today)),
    (Z.ltb_spec (month today) month_num),
    (Z.ltb_spec month_num (month today)); lia.
Qed.

(** One year ahead of a valid date is still before the second new year. *)
Lemma add_days_365 (today : date) :
  valid today → year today + 2 ≤ MAXYEAR →
  ∃ limit, add_days today 365 = Ok limit ∧ year limit < year today + 2.
Proof.
  intros Hv Hy. unfold MAXYEAR in Hy.
  destruct (valid_fields _ Hv) as (Hyr & _ & _).
  destruct (toordinal_in_year _ Hv) as [Hlo Hhi].
  pose proof (days_before_year_step (year today + 1)) as Hstep.
  replace (year today + 1 + 1) with (year today + 2) in Hstep by lia.
  pose proof (days_before_year_mono 1 (year today) ltac:(lia)) as H1.
  pose proof (days_before_year_mono (year today + 2) 9999 ltac:(lia)) as H2.
  change (_days_before_year 1) with 0 in H1.
  change (_days_before_year 9999) with 3651694 in H2.
  unfold add_days, _MAXORDINAL.
  destruct (Z.ltb_spec 0 (toordinal today + 365)); [|lia].
  destruct (Z.leb_spec (toordinal today + 365) 3652059); [|lia].
  eexists; split; [reflexivity|].
  apply ord2ymd_year_before; lia.
Qed.

Lemma month_events_past (today : date) (r : row) (months : list string)
    (m : string) (month_num : Z) :
  valid today → strptime_b_month m = Ok month_num → month_num < month today →
  month_events today r months m
  = if year today + 2 <=? MAXYEAR then Ok [] else Raise ValueError.
Proof.
  intros Hv Hm Hlt.
  destruct (valid_fields _ Hv) as (Hyr & _ & _).
  pose proof (strptime_b_month_range _ _ Hm) as Hk.
  unfold month_events, month_body. rewrite Hm. cbn.
  rewrite resolve_year_compare.
  destruct (Z.compare_spec month_num (month today)); try lia.
  rewrite datetime_15 by done. unfold MINYEAR, MAXYEAR.
  destruct (Z.leb_spec (year today + 2) 9999) as [Hle|Hgt].
  - destruct (Z.leb_spec 1 (year today + 2)); [|lia]. cbn.
    destruct (add_days_365 today Hv Hle) as (lim & -> & Hlim).
    unfold Datetime.leb at 1; cbn [year month day].
    destruct (Z.ltb_spec (year today) (year today + 2)); [|lia]. cbn.
    unfold Datetime.leb; cbn [year month day].
    destruct (Z.ltb_spec (year today + 2) (year lim)); [lia|].
    destruct (Z.ltb_spec (year lim) (year today + 2)); [done|lia].
  - destruct (Z.leb_spec 1 (year today + 2)); done.
Qed.

(** Every event of a month carries the resolved date, the ticker and the
    rounded amount, and its date passed the window test. *)
Lemma month_events_inv today r months m l e :
  month_events today r months m = Ok l → e ∈ l →
  ∃ month_num limit,
    strptime_b_month m = Ok month_num ∧
    add_days today 365 = Ok limit ∧
    Datetime.leb today (Date e) = true ∧
    Datetime.leb (Date e) limit = true ∧
    e = {| Date := mkdate (resolve_year today month_num) month_num 15;
           ev_Ticker := Slice (hold r);
           Amount := round (amount r months) 2 |}.
Proof.
  unfold month_events, month_body. intros H Hin.
  apply bind_Ok in H as (k & Hk & H).
  apply bind_Ok in H as (p & Hp & H).
  pose proof (strptime_b_month_range _ _ Hk) as Hr.
  rewrite datetime_15 in Hp by done.
  destruct (_ && _); [|done]. injection Hp as <-.
  destruct (Datetime.leb today _) eqn:Hle1; [|injection H as <-; set_solver].
  apply bind_Ok in H as (lim & Hlim & H).
  destruct (Datetime.leb _ lim) eqn:Hle2; [|injection H as <-; set_solver].
  injection H as <-. cbn in Hin. apply list_elem_of_singleton in Hin as ->.
  exists k, lim. cbn [Date]. done.
Qed.

End Scheduler.

(** ** Loops as collections *)

Section Collect.

Lemma for_each_months_collect today r months ms :
  for_each (month_body today r months) ms []
  = collect (map (month_events today r months) ms).
Proof.
  induction ms as [|m ms IH]; cbn; [done|].
  rewrite month_body_extend.
  destruct (month_events today r months m) as [l|]; cbn; [|done].
  by rewrite for_each_month_extend, IH.
Qed.

Lemma for_each_rows_extend today df acc :
  for_each (row_body today) df acc = extend acc (for_each (row_body today) df []).
Proof.
  revert acc. induction df as [|r df IH]; intros acc; cbn.
  - by rewrite app_nil_r.
  - rewrite (row_body_extend _ _ acc).
    destruct (row_body today r []) as [l|]; cbn; [|done].
    rewrite (IH (acc ++ l)), (IH l). by rewrite extend_app.
Qed.

Lemma future_divs_at_collect today df :
  future_divs_at today df = collect (map (λ r, row_body today r []) df).
Proof.
  unfold future_divs_at. induction df as [|r df IH]; cbn; [done|].
  destruct (row_body today r []) as [l|]; cbn; [|done].
  by rewrite for_each_rows_extend, IH.
Qed.

Lemma collect_Ok_elem rs l e :
  collect rs = Ok l → e ∈ l → ∃ l', Ok l' ∈ rs ∧ e ∈ l'.
Proof.
  revert l. induction rs as [|r rs IH]; intros l; cbn.
  - intros [= <-]. set_solver.
  - destruct r as [l0|]; [|done].
    destruct (collect rs) as [l1|]; cbn; [|done].
    intros [= <-] [Hin|Hin]%elem_of_app.
    + exists l0. set_solver.
    + destruct (IH l1 eq_refl Hin) as (l' & ? & ?). exists l'. set_solver.
Qed.

Lemma collect_all_Ok (ls : list (list event)) :
  collect (map Ok ls) = Ok (concat ls).
Proof.
  induction ls as [|l ls IH]; cbn; [done|]. by rewrite IH.
Qed.

Lemma elem_of_concat {A} (ls : list (list A)) (x : A) :
  x ∈ concat ls ↔ ∃ l, x ∈ l ∧ l ∈ ls.
Proof.
  induction ls as [|l ls IH]; cbn.
  - split; [by intros ?%elem_of_nil | by intros (? & _ & ?%elem_of_nil)].
  - rewrite elem_of_app, IH. split.
    + intros [?|(l' & ? & ?)].
      * exists l. split; [done|by left].
      * exists l'. split; [done|by right].
    + intros (l' & ? & [->|?]%elem_of_cons); [by left|right; eauto].
Qed.

(** The rows whose ticker has a non-empty schedule contribute its months. *)
Lemma row_body_scheduled today r months :
  known_div_schedule !! Slice (hold r) = Some months →
  row_body today r [] = collect (map (month_events today r months) months).
Proof.
  intros H. unfold row_body. rewrite H.
  destruct months as [|m0 ms]; [done|]. apply for_each_months_collect.
Qed.

Lemma month_events_pay_date today r months m :
  month_events today r months m
  = match pay_date_of today m with
    | Ok (Some d) => Ok [payment r months d]
    | Ok None => Ok []
    | Raise e => Raise e
    end.
Proof.
  unfold month_events, month_body, pay_date_of.
  destruct (strptime_b_month m) as [k|]; cbn; [|done].
  destruct (datetime _ k 15) as [p|]; cbn; [|done].
  destruct (Datetime.leb today p); cbn; [|done].
  destruct (add_days today 365) as [lim|]; cbn; [|done].
  by destruct (Datetime.leb p lim).
Qed.

Lemma row_body_events_inv today r l e :
  row_body today r [] = Ok l → e ∈ l →
  ∃ months m lm,
    known_div_schedule !! Slice (hold r) = Some months ∧ m ∈ months ∧
    month_events today r months m = Ok lm ∧ e ∈ lm.
Proof.
  intros H Hin.
  destruct (known_div_schedule !! Slice (hold r)) as [months|] eqn:Hs.
  - rewrite (row_body_scheduled _ _ _ Hs) in H.
    destruct (collect_Ok_elem _ _ _ H Hin) as (lm & Hlm & He).
    apply list_elem_of_fmap in Hlm as (m & Hm & Hmin).
    exists months, m, lm. done.
  - unfold row_body in H. rewrite Hs in H. injection H as <-. set_solver.
Qed.

End Collect.

Section Forecast.

Example enrich_bp :
  enrich demo_chart demo_fundamentals [bp_holding] = Ok [bp_row].
Proof. reflexivity. Qed.

Example enrich_vod :
  enrich demo_chart demo_fundamentals [vod_holding] = Ok [vod_row].
Proof. reflexivity. Qed.

(** With the reference date of the script no label of the schedule raises. *)
Lemma schedule_never_raises :
  map_Forall (λ _ months, Forall (λ m, is_Ok (pay_date_of today m) = true) months)
             known_div_schedule.
Proof. compute_done. Qed.

Lemma row_body_payments (r : row) :
  row_body today r [] = Ok (row_payments today r).
Proof.
  unfold row_payments.
  destruct (known_div_schedule !! Slice (hold r)) as [months|] eqn:Hs.
  - rewrite (row_body_scheduled _ _ _ Hs).
    pose proof (schedule_never_raises _ _ Hs) as Hok.
    rewrite <- collect_all_Ok. f_equal. rewrite map_map.
    apply Forall_fmap_ext_1. eapply Forall_impl; [exact Hok|].
    intros m Hm. cbn in Hm. rewrite month_events_pay_date.
    unfold month_payments. by destruct (pay_date_of today m) as [[d|]|].
  - unfold row_body. by rewrite Hs.
Qed.

(** With the reference date of the script the forecast never raises. *)
Lemma future_divs_total (df : list row) :
  future_divs df = Ok (concat (map (row_payments today) df)).
Proof.
  unfold future_divs. rewrite future_divs_at_collect, <- collect_all_Ok.
  f_equal. rewrite map_map. apply map_ext. intros r. apply row_body_payments.
Qed.

(** C2: for a scheduled label resolving to [month_num], the year of the
    payment is the current year when the month is still ahead, the next
    year when it is the current month, and two years ahead when the month
    lies strictly before the current one; every event the label adds is
    dated the fifteenth of that month in that year. *)
Theorem year_resolution (today : date) (r : row) (months : list string)
    (m : string) (month_num : Z) :
  strptime_b_month m = Ok month_num →
  (month today < month_num → resolve_year today month_num = year today) ∧
  (month_num = month today → resolve_year today month_num = year today + 1) ∧
  (month_num < month today → resolve_year today month_num = year today + 2) ∧
  (∀ acc evs e,
     month_body today r months m acc = Ok evs → e ∈ evs →
     e ∈ acc ∨ Date e = mkdate (resolve_year today month_num) month_num 15).
Proof.
  intros Hm. rewrite resolve_year_compare.
  repeat split.
  - intros H. by apply Z.compare_gt_iff in H as ->.
  - intros ->. by rewrite Z.compare_refl.
  - intros H. by apply Z.compare_lt_iff in H as ->.
  - intros acc evs e Hb Hin. rewrite month_body_extend in Hb.
    destruct (month_events today r months m) as [l|] eqn:Hl; [|done].
    injection Hb as <-. apply elem_of_app in Hin as [?|Hin]; [by left|right].
    destruct (month_events_inv _ _ _ _ _ _ Hl Hin)
      as (k & lim & Hk & _ & _ & _ & ->).
    rewrite Hm in Hk. injection Hk as <-. cbn [Date].
    by rewrite resolve_year_compare.
Qed.

Lemma year_resolution_witness :
  strptime_b_month "Sep" = Ok 9 ∧
  resolve_year today 9 = year today + 2 ∧
  resolve_year today 11 = year today + 1 ∧
  resolve_year today 12 = year today.
Proof.
  split; [reflexivity|].
  destruct (year_resolution today bp_row quarterly_months "Sep" 9 eq_refl)
    as (_ & _ & H & _).
  split; [apply H; reflexivity|]. split; reflexivity.
Defined.

(** C10: for a valid reference date, a scheduled month strictly before the
    current month is dated more than 365 days ahead and adds no event (the
    loop body returns the collected events unchanged, or fails on the year
    range when the year after next does not exist); hence no event of a
    forecast falls in a month before the current one. *)
Theorem past_month_never_pays (today : date) :
  valid today →
  (∀ r months m month_num acc,
     strptime_b_month m = Ok month_num → month_num < month today →
     toordinal today + 365
       < toordinal (mkdate (resolve_year today month_num) month_num 15) ∧
     month_body today r months m acc
       = if year today + 2 <=? MAXYEAR then Ok acc else Raise ValueError) ∧
  (∀ df evs e,
     future_divs_at today df = Ok evs → e ∈ evs →
     month today ≤ month (Date e)).
Proof.
  intros Hv. split.
  - intros r months m k acc Hm Hlt. split.
    + rewrite resolve_year_compare.
      apply Z.compare_lt_iff in Hlt as Hc. rewrite Hc.
      pose proof (strptime_b_month_range _ _ Hm) as Hk.
      destruct (toordinal_in_year _ Hv) as [_ Hhi].
      pose proof (days_before_year_step (year today + 1)) as Hstep.
      replace (year today + 1 + 1) with (year today + 2) in Hstep by lia.
      unfold toordinal at 2, _ymd2ord; cbn [year month day].
      assert (0 ≤ _days_before_month (year today + 2) k); [|lia].
      unfold _days_before_month.
      assert (0 ≤ tbl _DAYS_BEFORE_MONTH k).
      { assert (Hk' : k = 1 ∨ k = 2 ∨ k = 3 ∨ k = 4 ∨ k = 5 ∨ k = 6 ∨ k = 7 ∨
                      k = 8 ∨ k = 9 ∨ k = 10 ∨ k = 11 ∨ k = 12) by lia.
        repeat destruct Hk' as [-> | Hk']; try subst k; by vm_compute. }
      destruct (_ && _); lia.
    + rewrite month_body_extend, (month_events_past _ _ _ _ _ Hv Hm Hlt).
      destruct (_ <=? _); cbn; by rewrite ?app_nil_r.
  - intros df evs e Hdf Hin.
    rewrite future_divs_at_collect in Hdf.
    destruct (collect_Ok_elem _ _ _ Hdf Hin) as (l & Hl & Hel).
    apply list_elem_of_fmap in Hl as (r & Hl & _). symmetry in Hl.
    destruct (row_body_events_inv _ _ _ _ Hl Hel)
      as (months & m & lm & _ & _ & Hlm & Helm).
    destruct (month_events_inv _ _ _ _ _ _ Hlm Helm)
      as (k & lim & Hk & _ & _ & _ & ->). cbn [Date month].
    destruct (Z_lt_le_dec k (month today)) as [Hlt|]; [|done].
    rewrite (month_events_past _ _ _ _ _ Hv Hk Hlt) in Hlm.
    destruct (_ <=? _); [|done]. injection Hlm as <-. set_solver.
Qed.

Lemma past_month_never_pays_witness :
  valid today ∧
  toordinal today + 365 < toordinal (mkdate (resolve_year today 9) 9 15) ∧
  month_body today bp_row quarterly_months "Sep" [] = Ok [].
Proof.
  assert (Hv : valid today) by reflexivity.
  split; [exact Hv|].
  destruct (past_month_never_pays today Hv) as [H _].
  exact (H bp_row quarterly_months "Sep"%string 9 [] eq_refl eq_refl).
Defined.

End Forecast.

Section ForecastClaims.

(** C1: at the reference date 2025-11-21 a holding of BP, scheduled for
    March, June, September and December, gets exactly one event, dated
    2025-12-15; September resolves to the year 2027 and fails the window
    test, so no event dated 2026-09-15 is produced. *)
Theorem bp_forecast_december_only (r : row) :
  Slice (hold r) = "BP"%string →
  future_divs [r]
  = Ok [{| Date := mkdate 2025 12 15; ev_Ticker := "BP";
           Amount := round (amount r quarterly_months) 2 |}] ∧
  resolve_year today 9 = 2027 ∧
  add_days today 365 = Ok (mkdate 2026 11 21) ∧
  Datetime.leb (mkdate 2027 9 15) (mkdate 2026 11 21) = false.
Proof.
  intros Hs. split; [|by repeat split].
  assert (Hl : known_div_schedule !! Slice (hold r) = Some quarterly_months)
    by (by rewrite Hs).
  unfold future_divs. rewrite future_divs_at_collect. cbn [map collect].
  rewrite (row_body_scheduled _ _ _ Hl).
  unfold quarterly_months at 2. cbn [map collect].
  rewrite !month_events_pay_date.
  change (pay_date_of today "Mar") with (@Ok (option date) None).
  change (pay_date_of today "Jun") with (@Ok (option date) None).
  change (pay_date_of today "Sep") with (@Ok (option date) None).
  change (pay_date_of today "Dec") with (Ok (Some (mkdate 2025 12 15))).
  cbn. unfold payment. by rewrite Hs.
Qed.

Lemma bp_forecast_december_only_witness :
  Slice (hold bp_row) = "BP"%string ∧
  future_divs [bp_row]
  = Ok [{| Date := mkdate 2025 12 15; ev_Ticker := "BP";
           Amount := round (amount bp_row quarterly_months) 2 |}].
Proof.
  split; [reflexivity|].
  exact (proj1 (bp_forecast_december_only bp_row eq_refl)).
Defined.

(** C6: a holding whose ticker is absent from the schedule adds nothing to
    the forecast, whatever the reference date: no quarterly default is
    applied to it. *)
Theorem unlisted_ticker_no_events (today : date) (r : row) (acc : list event) :
  known_div_schedule !! Slice (hold r) = None →
  row_body today r acc = Ok acc ∧ future_divs_at today [r] = Ok [].
Proof.
  intros H. unfold future_divs_at. cbn [for_each]. unfold row_body. by rewrite H.
Qed.

Lemma unlisted_ticker_no_events_witness :
  known_div_schedule !! Slice (hold vod_row) = None ∧
  future_divs [vod_row] = Ok [].
Proof.
  split; [reflexivity|].
  exact (proj2 (unlisted_ticker_no_events today vod_row [] eq_refl)).
Defined.

(** C7, as stated, fails: the BP holding of one share at 0.50 with a yield
    of 0.25 has the unrounded amount 0.03125, and its December event
    carries 0.03. *)
Lemma event_amount_unrounded_counterexample :
  ¬ (∀ (r : row) (months : list string) (evs : list event) (e : event),
       known_div_schedule !! Slice (hold r) = Some months →
       future_divs [r] = Ok evs → e ∈ evs →
       Amount e = amount r months).
Proof.
  intros H.
  specialize (H bp_row quarterly_months
                [{| Date := mkdate 2025 12 15; ev_Ticker := "BP";
                    Amount := Fin (3 # 100) |}]
                {| Date := mkdate 2025 12 15; ev_Ticker := "BP";
                   Amount := Fin (3 # 100) |}
                eq_refl eq_refl ltac:(by left)).
  vm_compute in H. discriminate.
Qed.

(** C7, amended: for a holding whose ticker is in the schedule the
    forecast is produced, every event of it carries the amount
    [round(quarterly * shares * (4 / len(months)), 2)], and every
    scheduled month whose payment date passes the window test has such an
    event. *)
Theorem event_amount_is_rounded (r : row) (months : list string) :
  known_div_schedule !! Slice (hold r) = Some months →
  ∃ evs,
    future_divs [r] = Ok evs ∧
    (∀ e, e ∈ evs → Amount e = round (amount r months) 2) ∧
    (∀ m month_num limit,
       m ∈ months → strptime_b_month m = Ok month_num →
       add_days today 365 = Ok limit →
       let pay_date := mkdate (resolve_year today month_num) month_num 15 in
       Datetime.leb today pay_date = true →
       Datetime.leb pay_date limit = true →
       {| Date := pay_date; ev_Ticker := Slice (hold r);
          Amount := round (amount r months) 2 |} ∈ evs).
Proof.
  intros Hs. exists (row_payments today r).
  assert (Hrun : future_divs [r] = Ok (row_payments today r)).
  { rewrite future_divs_total. cbn. by rewrite app_nil_r. }
  split; [exact Hrun|]. unfold row_payments. rewrite Hs. split.
  - intros e (l & He & Hl)%elem_of_concat.
    apply list_elem_of_fmap in Hl as (m & -> & _). unfold month_payments in He.
    destruct (pay_date_of today m) as [[d|]|]; [|by apply elem_of_nil in He..].
    apply list_elem_of_singleton in He as ->. done.
  - intros m k lim Hin Hk Hlim Hle1 Hle2.
    set (pay_date := mkdate (resolve_year today k) k 15) in *.
    apply elem_of_concat. exists (month_payments today r months m).
    split; [|by apply list_elem_of_fmap_2].
    assert (Hp : pay_date_of today m = Ok (Some pay_date)).
    { pose proof (schedule_never_raises _ _ Hs) as Hok.
      rewrite Forall_forall in Hok. specialize (Hok m Hin). cbn in Hok.
      unfold pay_date_of in Hok |- *. rewrite Hk in Hok |- *. cbn in Hok |- *.
      rewrite datetime_15 in Hok |- * by by eapply strptime_b_month_range.
      destruct (_ && _); [|done]. cbn. fold pay_date.
      rewrite Hle1, Hlim. cbn. by rewrite Hle2. }
    unfold month_payments. rewrite Hp. by apply list_elem_of_singleton.
Qed.

Lemma event_amount_is_rounded_witness :
  known_div_schedule !! Slice (hold bp_row) = Some quarterly_months ∧
  ∃ evs,
    future_divs [bp_row] = Ok evs ∧
    (∀ e, e ∈ evs → Amount e = round (amount bp_row quarterly_months) 2).
Proof.
  split; [reflexivity|].
  destruct (event_amount_is_rounded bp_row quarterly_months eq_refl)
    as (evs & Hrun & Hamt & _).
  exists evs. split; assumption.
Defined.

End ForecastClaims.

(** ** Valuation *)

Section NumFacts.

Lemma mul_zero_finite (x : num) :
  isfinite x = true → (Fin 0 * x)%num = Fin 0.
Proof.
  destruct x as [[n d]| |]; try discriminate. intros _. reflexivity.
Qed.

Lemma eqb_zero_inv (x : num) :
  Num.eqb x (Fin 0) = true → ∃ b, x = Fin b ∧ qzero b = true.
Proof. destruct x as [b| |]; try discriminate. intros H. by exists b. Qed.

(** Dividing by a zero never gives zero: the quotient is an infinity or
    not-a-number. *)
Lemma div_by_zero (x : num) (b : Q) :
  qzero b = true →
  Num.eqb (x / Fin b) (Fin 0) = false ∧ isfinite (x / Fin b) = false ∧
  (Num.eqb x (Fin 0) = true → (x / Fin b)%num = NaN).
Proof.
  intros Hb. destruct x as [a|s|]; cbn; rewrite ?Hb.
  - unfold qzero. destruct (Qeq_bool a 0); by cbn.
  - done.
  - done.
Qed.

Lemma foldl_add_Fin (qs : list Q) (a : Q) :
  ∃ b, foldl Num.add (Fin a) (map Fin qs) = Fin b ∧ (b == a + Qsum qs)%Q.
Proof.
  unfold Qsum. revert a. induction qs as [|q qs IH]; intros a; cbn.
  - exists a. split; [done|]. ring.
  - destruct (IH (Qred (a + q))) as (b & -> & Hb). exists b. split; [done|].
    rewrite Hb, Qred_correct. ring.
Qed.

Lemma filter_present_Fin (qs : list Q) :
  filter (λ x, isnan x = false) (map Fin qs) = map Fin qs.
Proof.
  induction qs as [|q qs IH]; [done|]. cbn [map].
  rewrite filter_cons. cbn. by rewrite IH.
Qed.

Lemma Series_sum_Fin (qs : list Q) :
  ∃ b, Series_sum (map Fin qs) = Fin b ∧ (b == Qsum qs)%Q.
Proof.
  unfold Series_sum. rewrite filter_present_Fin.
  destruct (foldl_add_Fin qs 0) as (b & -> & Hb). exists b. split; [done|].
  rewrite Hb. ring.
Qed.

Lemma nonneg_list (xs : list num) :
  Forall nonneg xs → ∃ qs, xs = map Fin qs ∧ Forall (λ q, (0 <= q)%Q) qs.
Proof.
  induction 1 as [|x xs (q & -> & Hq) _ (qs & -> & Hqs)].
  - by exists [].
  - exists (q :: qs). split; [done|]. by constructor.
Qed.

Lemma Qsum_scale (qs : list Q) (t : Q) :
  (Qsum (map (λ q, Qred (q / t)) qs) == Qsum qs / t)%Q.
Proof.
  unfold Qsum. induction qs as [|q qs IH]; cbn.
  - unfold Qdiv. ring.
  - rewrite IH, Qred_correct. unfold Qdiv. ring.
Qed.

End NumFacts.

Section Valuation.

Variable yahoo_chart : string → result (num * num).
Variable get_analyst_and_yield : string → string * option num * num.

(** The progress bar takes the value of a row whose label is below the
    number of rows. *)
Lemma label_in_range_accepted (n : Z) (h : holding) :
  0 ≤ Index h < n → progress_accepts (progress_value n h) = true.
Proof.
  intros [H0 Hn]. unfold progress_accepts, progress_value.
  assert (Hpos : (0 < inject_Z n)%Q) by (unfold Qlt; cbn; lia).
  assert (Hv0 : (0 <= inject_Z (Index h + 1) / inject_Z n)%Q).
  { apply Qle_shift_div_l; [done|]. unfold Qle; cbn; lia. }
  assert (Hv1 : (inject_Z (Index h + 1) / inject_Z n <= 1)%Q).
  { apply Qle_shift_div_r; [done|]. unfold Qle; cbn; lia. }
  apply Qle_bool_iff in Hv0, Hv1. by rewrite Hv0, Hv1.
Qed.

(** In a table of up to 10^8 rows it refuses the value of a row whose
    label is not below the number of rows. *)
Lemma label_out_of_range_rejected (n : Z) (h : holding) :
  0 < n ≤ 100000000 → n ≤ Index h →
  progress_accepts (progress_value n h) = false.
Proof.
  intros [H0 Hn] Hi. unfold progress_accepts, progress_value, isclose.
  set (v := (inject_Z (Index h + 1) / inject_Z n)%Q).
  assert (Hpos : (0 < inject_Z n)%Q) by (unfold Qlt; cbn; lia).
  assert (Hv : (1 + (1 # 100000000) <= v)%Q).
  { apply Qle_shift_div_l; [done|].
    unfold Qle, Qmult, Qplus, inject_Z; cbn. lia. }
  assert (Ha : Qabs v == v) by (apply Qabs_pos; lra).
  assert (Ha0 : Qabs (v - 0) == v).
  { rewrite Qabs_pos; [ring|lra]. }
  assert (Ha1 : Qabs (v - 1) == v - 1) by (apply Qabs_pos; lra).
  assert (E1 : Qle_bool v 1 = false).
  { apply not_true_iff_false. rewrite Qle_bool_iff. lra. }
  assert (E2 : Qle_bool (Qabs (v - 0))
                 (Qmax ((1 # 1000000000) * Qmax (Qabs v) (Qabs 0))
                       (1 # 1000000000)) = false).
  { apply not_true_iff_false. rewrite Qle_bool_iff, Ha0, Q.max_le_iff.
    intros [H|H]; [|lra].
    assert (Hm : (Qmax (Qabs v) (Qabs 0) <= v)%Q).
    { apply Q.max_lub; [lra|]. change (Qabs 0) with 0%Q. lra. }
    nra. }
  assert (E3 : Qle_bool (Qabs (v - 1))
                 (Qmax ((1 # 1000000000) * Qmax (Qabs v) (Qabs 1))
                       (1 # 1000000000)) = false).
  { apply not_true_iff_false. rewrite Qle_bool_iff, Ha1, Q.max_le_iff.
    intros [H|H]; [|lra].
    assert (Hm : (Qmax (Qabs v) (Qabs 1) <= v)%Q).
    { apply Q.max_lub; [lra|]. change (Qabs 1) with 1%Q. lra. }
    nra. }
  by rewrite E1, E2, E3, andb_false_r.
Qed.

Lemma fetch_body_eq (n : Z) (h : holding) (acc : list live_row) :
  fetch_body yahoo_chart get_analyst_and_yield n h acc
  = if progress_accepts (progress_value n h)
    then Ok (acc ++ [fetch_row yahoo_chart get_analyst_and_yield h])
    else Raise StreamlitAPIException.
Proof. reflexivity. Qed.

Lemma fetch_loop_Ok (n : Z) (df : list holding) (acc prices : list live_row) :
  for_each (fetch_body yahoo_chart get_analyst_and_yield n) df acc = Ok prices →
  prices = acc ++ map (fetch_row yahoo_chart get_analyst_and_yield) df.
Proof.
  revert acc. induction df as [|h df IH]; intros acc; cbn [for_each map].
  - intros [= <-]. by rewrite app_nil_r.
  - rewrite fetch_body_eq.
    destruct (progress_accepts (progress_value n h)); cbn; [|done].
    intros ->%IH. by rewrite <- app_assoc.
Qed.

Lemma fetch_loop_accepts (n : Z) (df : list holding) (acc : list live_row) :
  Forall (λ h, progress_accepts (progress_value n h) = true) df →
  for_each (fetch_body yahoo_chart get_analyst_and_yield n) df acc
  = Ok (acc ++ map (fetch_row yahoo_chart get_analyst_and_yield) df).
Proof.
  intros H. revert acc. induction H as [|h df Hh _ IH]; intros acc;
    cbn [for_each map].
  - by rewrite app_nil_r.
  - rewrite fetch_body_eq, Hh. cbn. by rewrite IH, <- app_assoc.
Qed.

Lemma fetch_loop_rejects (n : Z) (before after : list holding) (h : holding)
    (acc : list live_row) :
  Forall (λ h, progress_accepts (progress_value n h) = true) before →
  progress_accepts (progress_value n h) = false →
  for_each (fetch_body yahoo_chart get_analyst_and_yield n)
           (before ++ h :: after) acc
  = Raise StreamlitAPIException.
Proof.
  intros H Hh. revert acc. induction H as [|h' df Hh' _ IH]; intros acc;
    cbn [for_each app]; rewrite fetch_body_eq.
  - by rewrite Hh.
  - rewrite Hh'. cbn. apply IH.
Qed.

Lemma with_live_rows (df : list holding) :
  with_live df (map (fetch_row yahoo_chart get_analyst_and_yield) df)
  = map (enrich_row yahoo_chart get_analyst_and_yield
           (portfolio_total yahoo_chart get_analyst_and_yield df)) df.
Proof.
  unfold with_live, portfolio_total.
  assert (Hz : ∀ {B} (f : holding → live_row → B),
             zip_with f df (map (fetch_row yahoo_chart get_analyst_and_yield) df)
             = map (λ h, f h (fetch_row yahoo_chart get_analyst_and_yield h)) df).
  { intros B f. induction df as [|h df' IH]; cbn; [done|]. by rewrite IH. }
  by rewrite !Hz.
Qed.

Lemma enrich_Ok (df : list holding) (rows : list row) :
  enrich yahoo_chart get_analyst_and_yield df = Ok rows →
  rows = map (enrich_row yahoo_chart get_analyst_and_yield
               (portfolio_total yahoo_chart get_analyst_and_yield df)) df.
Proof.
  unfold enrich.
  destruct (for_each _ df []) as [prices|] eqn:Hl; [|done].
  apply fetch_loop_Ok in Hl. cbn in Hl. subst prices. cbn.
  destruct df as [|h df]; [done|]. cbn [map].
  intros [= <-]. apply (with_live_rows (h :: df)).
Qed.

Lemma enrich_accepted (df : list holding) :
  df ≠ [] →
  Forall (λ h, progress_accepts
                 (progress_value (Z.of_nat (length df)) h) = true) df →
  enrich yahoo_chart get_analyst_and_yield df
  = Ok (map (enrich_row yahoo_chart get_analyst_and_yield
              (portfolio_total yahoo_chart get_analyst_and_yield df)) df).
Proof.
  intros Hne Hacc. unfold enrich. rewrite (fetch_loop_accepts _ _ _ Hacc).
  cbn. destruct df as [|h df]; [done|]. cbn [map].
  f_equal. apply (with_live_rows (h :: df)).
Qed.

Lemma enrich_nonempty (df : list holding) :
  df ≠ [] →
  Forall (λ h, 0 ≤ Index h < Z.of_nat (length df)) df →
  enrich yahoo_chart get_analyst_and_yield df
  = Ok (map (enrich_row yahoo_chart get_analyst_and_yield
              (portfolio_total yahoo_chart get_analyst_and_yield df)) df).
Proof.
  intros Hne Hl. apply enrich_accepted; [done|].
  eapply Forall_impl; [exact Hl|]. intros h. apply label_in_range_accepted.
Qed.

Lemma enrich_total (df : list holding) (rows : list row) :
  enrich yahoo_chart get_analyst_and_yield df = Ok rows →
  total_now rows = portfolio_total yahoo_chart get_analyst_and_yield df.
Proof.
  intros ->%enrich_Ok. unfold total_now, portfolio_total. f_equal.
  rewrite map_map. by apply map_ext.
Qed.

Lemma market_value_unavailable (h : holding) :
  get_live_price yahoo_chart (Ticker h) = (Fin 0, Fin 0) →
  market_value yahoo_chart get_analyst_and_yield h
  = (Fin 0 * Owned_quantity h)%num.
Proof.
  intros Hq. unfold market_value, fetch_row. rewrite Hq.
  by destruct (get_analyst_and_yield (Slice h)) as [[rec tgt] y].
Qed.

(** With a positive total and market values that are finite and not
    negative, every weight is at least 0 and the weights add up to 1. *)
Lemma positive_total_weights (df : list holding) (rows : list row) :
  enrich yahoo_chart get_analyst_and_yield df = Ok rows →
  Forall (λ r, nonneg (Market_Value r)) rows →
  gtb (total_now rows) (Fin 0) = true →
  Forall (λ r, geb (Weight r) (Fin 0) = true) rows ∧
  Num.eqb (Series_sum (map Weight rows)) (Fin 1) = true.
Proof.
  intros He Hnn Hpos.
  pose proof (enrich_total _ _ He) as Htot.
  apply enrich_Ok in He.
  assert (Hw : map Weight rows
               = map (λ x, (x / total_now rows)%num) (map Market_Value rows)).
  { rewrite Htot, He, !map_map. by apply map_ext. }
  destruct (nonneg_list (map Market_Value rows)) as (qs & Hqs & Hq0).
  { by apply Forall_fmap. }
  assert (Ht : ∃ t, total_now rows = Fin t ∧ (t == Qsum qs)%Q).
  { unfold total_now. rewrite Hqs. apply Series_sum_Fin. }
  destruct Ht as (t & Ht & Hsum). rewrite Ht in Hpos, Hw. cbn in Hpos.
  apply negb_true_iff in Hpos.
  assert (Htpos : (0 < t)%Q).
  { apply Qnot_le_lt. intros Hle. apply Qle_bool_iff in Hle. congruence. }
  assert (Hnz : qzero t = false).
  { unfold qzero. destruct (Qeq_bool t 0) eqn:E; [|done].
    apply Qeq_bool_eq in E. rewrite E in Htpos. by apply Qlt_irrefl in Htpos. }
  assert (Hw' : map Weight rows = map Fin (map (λ q, Qred (q / t)) qs)).
  { rewrite Hw, Hqs, !map_map. apply map_ext. intros q. cbn. by rewrite Hnz. }
  split.
  - assert (HF : Forall (λ w, geb w (Fin 0) = true) (map Weight rows));
      [|by apply Forall_fmap in HF].
    rewrite Hw'. apply Forall_fmap, Forall_fmap.
    eapply Forall_impl; [exact Hq0|]. intros q Hq. cbn.
    apply Qle_bool_iff. rewrite Qred_correct.
    apply Qle_shift_div_l; [done|]. by rewrite Qmult_0_l.
  - rewrite Hw'.
    destruct (Series_sum_Fin (map (λ q, Qred (q / t)) qs)) as (b & -> & Hb).
    cbn. apply Qeq_eq_bool. rewrite Hb, Qsum_scale, <- Hsum.
    field. intros E. rewrite E in Htpos. by apply Qlt_irrefl in Htpos.
Qed.

End Valuation.

Section ValuationClaims.

(** C3: when the total market value is zero no weight is zero: every
    weight is a division by zero, hence infinite or not-a-number, and
    not-a-number for each holding whose own market value is zero. *)
Theorem zero_total_weights_not_zero
    (yahoo_chart : string → result (num * num))
    (get_analyst_and_yield : string → string * option num * num)
    (df : list holding) (rows : list row) :
  enrich yahoo_chart get_analyst_and_yield df = Ok rows →
  Num.eqb (total_now rows) (Fin 0) = true →
  ∀ r, r ∈ rows →
    Num.eqb (Weight r) (Fin 0) = false ∧
    (Num.eqb (Market_Value r) (Fin 0) = true → Weight r = NaN).
Proof.
  intros He Ht r Hr.
  rewrite (enrich_total _ _ _ _ He) in Ht.
  apply eqb_zero_inv in Ht as (b & Hb & Hz).
  apply enrich_Ok in He as ->.
  apply list_elem_of_fmap in Hr as (h & -> & _).
  unfold enrich_row; cbn [Weight Market_Value]. rewrite Hb.
  destruct (div_by_zero (market_value yahoo_chart get_analyst_and_yield h) b Hz)
    as (H1 & _ & H2).
  by split.
Qed.

Lemma zero_total_weights_not_zero_witness :
  enrich demo_chart demo_fundamentals [vod_holding] = Ok [vod_row] ∧
  Num.eqb (total_now [vod_row]) (Fin 0) = true ∧
  Weight vod_row = NaN.
Proof.
  split; [reflexivity|]. split; [reflexivity|].
  refine (proj2 (zero_total_weights_not_zero demo_chart demo_fundamentals
                   [vod_holding] [vod_row] eq_refl eq_refl vod_row _) eq_refl).
  by left.
Defined.

(** C4: when the total market value is zero the forward yield is a
    division by zero: it is infinite or not-a-number, never zero. *)
Theorem zero_total_forward_yield_not_zero (df : list row) :
  Num.eqb (total_now df) (Fin 0) = true →
  Num.eqb (est_forward_yield df) (Fin 0) = false ∧
  isfinite (est_forward_yield df) = false ∧
  c2_metric df = Ok (Formatted (est_forward_yield df) ".2%").
Proof.
  intros Ht. apply eqb_zero_inv in Ht as (b & Hb & Hz).
  unfold c2_metric, format, est_forward_yield. rewrite Hb.
  destruct (div_by_zero
              (Series_dot (map Market_Value df) (map (λ r, yield (live r)) df))
              b Hz) as (H1 & H2 & _).
  by repeat split.
Qed.

Lemma zero_total_forward_yield_not_zero_witness :
  Num.eqb (total_now [vod_row]) (Fin 0) = true ∧
  est_forward_yield [vod_row] = NaN ∧
  Num.eqb (est_forward_yield [vod_row]) (Fin 0) = false.
Proof.
  split; [reflexivity|]. split; [reflexivity|].
  exact (proj1 (zero_total_forward_yield_not_zero [vod_row] eq_refl)).
Defined.

(** C5: the expression shown by the third metric is a Series, one product
    per holding, never summed; formatting it with [,.0f] raises whenever
    the total market value is positive, and the literal text is shown
    otherwise. *)
Theorem expected_divs_metric_raises (df : list row) :
  (∃ xs, expected_divs_expr df = PySeries xs ∧ length xs = length df) ∧
  c3_metric df
  = if gtb (total_now df) (Fin 0) then Raise TypeError else Ok [Lit "£0"].
Proof.
  split.
  - eexists. split; [reflexivity|]. by rewrite length_map.
  - unfold c3_metric. by destruct (gtb _ _).
Qed.

Example expected_divs_metric_bp : c3_metric [bp_row] = Raise TypeError.
Proof. reflexivity. Qed.

(** C8, as stated, fails twice.  With the quote unavailable, a holding
    whose quantity is missing has a market value that is not-a-number,
    not 0.  And an exception is raised after the quote came back
    unavailable when the holding's label is not below the number of
    holdings: for the one holding left of a table whose first row was the
    "Total" row, the progress bar is handed 2.0 and raises. *)
Lemma unavailable_quote_counterexample :
  ¬ (∀ (yahoo_chart : string → result (num * num))
       (get_analyst_and_yield : string → string * option num * num)
       (before after : list holding) (h : holding) (rows : list row) (r : row),
       get_live_price yahoo_chart (Ticker h) = (Fin 0, Fin 0) →
       enrich yahoo_chart get_analyst_and_yield (before ++ h :: after) = Ok rows →
       r ∈ rows → hold r = h →
       Num.eqb (Market_Value r) (Fin 0) = true)
  ∧ ¬ (∀ (yahoo_chart : string → result (num * num))
         (get_analyst_and_yield : string → string * option num * num)
         (before after : list holding) (h : holding),
         get_live_price yahoo_chart (Ticker h) = (Fin 0, Fin 0) →
         isfinite (Owned_quantity h) = true →
         is_Ok (enrich yahoo_chart get_analyst_and_yield
                  (before ++ h :: after)) = true)
  ∧ normalise (λ _, None) [total_raw; vod_raw] = Ok [vod_below_total]
  ∧ enrich demo_chart demo_fundamentals [vod_below_total]
    = Raise StreamlitAPIException.
Proof.
  split; [|split; [|split; reflexivity]].
  - intros H.
    specialize (H demo_chart demo_fundamentals [] [] blank_holding
                  [blank_row] blank_row eq_refl eq_refl ltac:(by left) eq_refl).
    vm_compute in H. discriminate.
  - intros H.
    specialize (H demo_chart demo_fundamentals [] [] vod_below_total
                  eq_refl eq_refl).
    vm_compute in H. discriminate.
Qed.

(** C8, amended: if the quote of a holding with a finite quantity comes
    back as the unavailable pair (0, 0), and the label of every holding is
    below the number of holdings, the fetch loop and the enrichment do not
    raise, the holding's market value is 0, and every holding before and
    after it has its row, in its place, with the quote and fundamentals
    fetched for it. *)
Theorem unavailable_quote_zero_value
    (yahoo_chart : string → result (num * num))
    (get_analyst_and_yield : string → string * option num * num)
    (before after : list holding) (h : holding) :
  get_live_price yahoo_chart (Ticker h) = (Fin 0, Fin 0) →
  isfinite (Owned_quantity h) = true →
  Forall (λ h', 0 ≤ Index h' < Z.of_nat (length (before ++ h :: after)))
         (before ++ h :: after) →
  ∃ rows_before r rows_after,
    enrich yahoo_chart get_analyst_and_yield (before ++ h :: after)
    = Ok (rows_before ++ r :: rows_after) ∧
    map hold rows_before = before ∧ hold r = h ∧ map hold rows_after = after ∧
    Market_Value r = Fin 0 ∧
    (∀ r', r' ∈ rows_before ++ r :: rows_after →
       live r' = fetch_row yahoo_chart get_analyst_and_yield (hold r')).
Proof.
  intros Hq Hfin Hlab.
  set (total := portfolio_total yahoo_chart get_analyst_and_yield
                  (before ++ h :: after)).
  set (mk := enrich_row yahoo_chart get_analyst_and_yield total).
  exists (map mk before), (mk h), (map mk after).
  split; [|split; [|split; [|split; [|split]]]].
  - rewrite enrich_nonempty by (done || by destruct before).
    by rewrite map_app.
  - rewrite map_map. cbn. apply map_id.
  - done.
  - rewrite map_map. cbn. apply map_id.
  - cbn. rewrite market_value_unavailable by done. by apply mul_zero_finite.
  - intros r' Hr'. change (mk h :: map mk after) with (map mk (h :: after)) in Hr'.
    rewrite <- map_app in Hr'.
    apply list_elem_of_fmap in Hr' as (h' & -> & _). done.
Qed.

Lemma unavailable_quote_zero_value_witness :
  get_live_price demo_chart (Ticker vod_holding) = (Fin 0, Fin 0) ∧
  isfinite (Owned_quantity vod_holding) = true ∧
  ∃ rows_before r rows_after,
    enrich demo_chart demo_fundamentals [vod_holding; bp_second]
    = Ok (rows_before ++ r :: rows_after) ∧
    hold r = vod_holding ∧ map hold rows_after = [bp_second] ∧
    Market_Value r = Fin 0.
Proof.
  split; [reflexivity|]. split; [reflexivity|].
  destruct (unavailable_quote_zero_value demo_chart demo_fundamentals
              [] [bp_second] vod_holding eq_refl eq_refl)
    as (rb & r & ra & He & _ & Hh & Ha & Hmv & _).
  { repeat constructor; cbn; lia. }
  exists rb, r, ra. repeat split; assumption.
Defined.

(** A run over a portfolio of positive value stops at the third metric. *)
Lemma dashboard_positive_total_raises
    (yahoo_chart : string → result (num * num))
    (get_analyst_and_yield : string → string * option num * num)
    (sort_values : list event → list event)
    (df : list holding) (rows : list row) :
  enrich yahoo_chart get_analyst_and_yield df = Ok rows →
  gtb (total_now rows) (Fin 0) = true →
  dashboard yahoo_chart get_analyst_and_yield sort_values df
  = Raise TypeError.
Proof.
  intros He Hpos. unfold dashboard. rewrite He. cbn.
  rewrite future_divs_total. cbn.
  unfold c3_metric. by rewrite Hpos.
Qed.

Example dashboard_bp (sort_values : list event → list event) :
  dashboard demo_chart demo_fundamentals sort_values [bp_holding]
  = Raise TypeError.
Proof. reflexivity. Qed.

End ValuationClaims.

(** ** Monthly bucketing *)

Section Bucketing.

Lemma add_swap (a x y : num) : (a + x + y)%num = (a + y + x)%num.
Proof.
  destruct a as [a|[]|], x as [x|[]|], y as [y|[]|]; cbn; try done.
  f_equal. apply Qred_complete. rewrite !Qred_correct. ring.
Qed.

Lemma foldl_add_perm (l l' : list num) :
  l ≡ₚ l' → ∀ a, foldl Num.add a l = foldl Num.add a l'.
Proof.
  induction 1 as [|x l l' _ IH|x y l|l l' l'' _ IH1 _ IH2]; intros a; cbn.
  - done.
  - apply IH.
  - by rewrite add_swap.
  - by rewrite IH1.
Qed.

Lemma Series_sum_perm (s s' : list num) :
  s ≡ₚ s' → Series_sum s = Series_sum s'.
Proof.
  intros H. unfold Series_sum. apply foldl_add_perm. by rewrite H.
Qed.

Lemma group_keys_perm (ks ks' : list string) :
  ks ≡ₚ ks' → group_keys ks = group_keys ks'.
Proof. intros H. unfold group_keys. by rewrite H. Qed.

Lemma elem_of_group_keys (ks : list string) (k : string) :
  k ∈ group_keys ks ↔ k ∈ ks.
Proof.
  unfold group_keys. rewrite merge_sort_Permutation.
  by rewrite elem_of_elements, elem_of_list_to_set.
Qed.

Lemma NoDup_group_keys (ks : list string) : NoDup (group_keys ks).
Proof.
  unfold group_keys. rewrite merge_sort_Permutation. apply NoDup_elements.
Qed.

Lemma groupby_sum_perm (items items' : list (string * num)) :
  items ≡ₚ items' → groupby_sum items = groupby_sum items'.
Proof.
  intros H. unfold groupby_sum.
  rewrite (group_keys_perm (map fst items) (map fst items'))
    by (by apply fmap_Permutation).
  apply map_ext. intros k. f_equal. apply Series_sum_perm.
  apply fmap_Permutation. by rewrite H.
Qed.

Lemma groupby_sum_keys (items : list (string * num)) :
  map fst (groupby_sum items) = group_keys (map fst items).
Proof. unfold groupby_sum. rewrite map_map. cbn. apply map_id. Qed.

Lemma elem_of_groupby_sum (items : list (string * num)) (k : string) (v : num) :
  (k, v) ∈ groupby_sum items ↔
  k ∈ map fst items ∧
  v = Series_sum (map snd (filter (λ it, it.1 = k) items)).
Proof.
  unfold groupby_sum. rewrite list_elem_of_fmap. split.
  - intros (k' & Heq & Hk). rewrite elem_of_group_keys in Hk.
    injection Heq as -> ->. by split.
  - intros [Hk ->]. exists k. split; [done|]. by apply elem_of_group_keys.
Qed.

(** The amounts filed under a label are those of the events carrying it. *)
Lemma bucket_amounts (evs : list event) (lbl : string) :
  map snd (filter (λ it, it.1 = lbl)
             (map (λ e, (strftime_bY (Date e), Amount e)) evs))
  = map Amount (filter (λ e, strftime_bY (Date e) = lbl) evs).
Proof.
  induction evs as [|e evs IH]; [done|]. cbn [map].
  rewrite !filter_cons. cbn [fst].
  destruct (decide (strftime_bY (Date e) = lbl)); cbn; by rewrite IH.
Qed.

End Bucketing.

Section BucketingClaims.

(** Two dates get the same label exactly when they agree on month and year. *)
Lemma strftime_bY_inj (a b : date) :
  1 ≤ month a ≤ 12 → 1 ≤ month b ≤ 12 →
  strftime_bY a = strftime_bY b → year a = year b ∧ month a = month b.
Proof.
  destruct a as [ya ma da], b as [yb mb db]. cbn [year month].
  intros Ha Hb. unfold strftime_bY. cbn [year month].
  assert (Ha' : ma = 1 ∨ ma = 2 ∨ ma = 3 ∨ ma = 4 ∨ ma = 5 ∨ ma = 6 ∨ ma = 7 ∨
                ma = 8 ∨ ma = 9 ∨ ma = 10 ∨ ma = 11 ∨ ma = 12) by lia.
  assert (Hb' : mb = 1 ∨ mb = 2 ∨ mb = 3 ∨ mb = 4 ∨ mb = 5 ∨ mb = 6 ∨ mb = 7 ∨
                mb = 8 ∨ mb = 9 ∨ mb = 10 ∨ mb = 11 ∨ mb = 12) by lia.
  clear Ha Hb.
  repeat destruct Ha' as [-> | Ha']; try subst ma;
    repeat destruct Hb' as [-> | Hb']; try subst mb;
    eval_month_name; cbn [String.append]; intros [= H];
    cbn [String.append] in H; apply pretty_Z_inj in H; by split.
Qed.

Lemma filter_ext_Forall {A} (P Q : A → Prop)
    `{∀ x, Decision (P x)} `{∀ x, Decision (Q x)} (l : list A) :
  Forall (λ x, P x ↔ Q x) l → filter P l = filter Q l.
Proof.
  induction 1 as [|x l Hx _ IH]; [done|].
  rewrite !filter_cons, IH.
  destruct (decide (P x)), (decide (Q x)); tauto.
Qed.

(** With amounts as exact numbers the monthly totals do not depend on the
    order of the events. *)
Lemma monthly_exact_perm (evs evs' : list event) :
  evs ≡ₚ evs' → monthly evs = monthly evs'.
Proof.
  intros Hperm. unfold monthly. apply groupby_sum_perm.
  by apply fmap_Permutation.
Qed.

Example monthly_exact_jan :
  monthly jan_events = [("Jan 2026"%string, Fin (101 # 4))]
  ∧ monthly (reverse jan_events) = [("Jan 2026"%string, Fin (101 # 4))].
Proof. split; reflexivity. Qed.

Lemma groupby_agg_keys {A B} (agg : list A → B) (items : list (string * A)) :
  map fst (groupby_agg agg items) = group_keys (map fst items).
Proof. unfold groupby_agg. rewrite map_map. cbn. apply map_id. Qed.

Lemma elem_of_groupby_agg {A B} (agg : list A → B)
    (items : list (string * A)) (k : string) (v : B) :
  (k, v) ∈ groupby_agg agg items ↔
  k ∈ map fst items ∧ v = agg (map snd (filter (λ it, it.1 = k) items)).
Proof.
  unfold groupby_agg. rewrite list_elem_of_fmap. split.
  - intros (k' & Heq & Hk). rewrite elem_of_group_keys in Hk.
    injection Heq as -> ->. by split.
  - intros [Hk ->]. exists k. split; [done|]. by apply elem_of_group_keys.
Qed.

Lemma bucket_amounts_f64 (evs : list event_f64) (lbl : string) :
  map snd (filter (λ it, it.1 = lbl)
             (map (λ e, (strftime_bY (Date_f64 e), Amount_f64 e)) evs))
  = map Amount_f64 (filter (λ e, strftime_bY (Date_f64 e) = lbl) evs).
Proof.
  induction evs as [|e evs IH]; [done|]. cbn [map].
  rewrite !filter_cons. cbn [fst].
  destruct (decide (strftime_bY (Date_f64 e) = lbl)); cbn; by rewrite IH.
Qed.

(** C9, as stated, fails: the totals are float64 sums taken in row order,
    and three payments of 161.92, 75.42 and 325.47 on the same day total
    562.81 in that order and 562.8100000000001 with the first one moved
    to the end. *)
Lemma monthly_order_counterexample :
  ¬ (∀ evs evs' : list event_f64,
       evs ≡ₚ evs' → monthly_f64 evs = monthly_f64 evs')
  ∧ dec_events_f64 ≡ₚ dec_events_f64'
  ∧ monthly_f64 dec_events_f64
    = [("Dec 2025"%string, 0x1.1967ae147ae14p+9%float)]
  ∧ monthly_f64 dec_events_f64'
    = [("Dec 2025"%string, 0x1.1967ae147ae15p+9%float)].
Proof.
  assert (Hp : dec_events_f64 ≡ₚ dec_events_f64').
  { unfold dec_events_f64, dec_events_f64'.
    etransitivity; [apply Permutation_cons_append|]. done. }
  split; [|split; [exact Hp|split; vm_compute; reflexivity]].
  intros H. specialize (H _ _ Hp).
  assert (E := f_equal (λ m : list (string * float),
                          match m with
                          | [(_, v)] =>
                              PrimFloat.eqb v 0x1.1967ae147ae14p+9%float
                          | _ => false
                          end) H).
  vm_compute in E. discriminate.
Qed.

(** C9, amended: the monthly bucketing files all events sharing the same
    calendar month and year under a single bucket keyed by their
    ["Mon YYYY"] label, whose total is the float64 sum of their amounts,
    compensated, in row order; every bucket is the bucket of some event.
    Under a permutation of the events the labels and their order are
    identical and every bucket sums the same amounts, each as often, in
    another order. *)
Theorem monthly_f64_buckets (evs evs' : list event_f64) :
  Forall (λ e, valid (Date_f64 e)) evs →
  evs ≡ₚ evs' →
  map fst (monthly_f64 evs) = map fst (monthly_f64 evs') ∧
  NoDup (map fst (monthly_f64 evs)) ∧
  (∀ e, e ∈ evs →
     (strftime_bY (Date_f64 e),
      group_sum
        (map Amount_f64
           (filter (λ e', year (Date_f64 e') = year (Date_f64 e) ∧
                          month (Date_f64 e') = month (Date_f64 e)) evs)))
     ∈ monthly_f64 evs) ∧
  (∀ lbl total,
     (lbl, total) ∈ monthly_f64 evs →
     ∃ e, e ∈ evs ∧ lbl = strftime_bY (Date_f64 e)) ∧
  (∀ lbl total,
     (lbl, total) ∈ monthly_f64 evs →
     ∃ amounts,
       (lbl, group_sum amounts) ∈ monthly_f64 evs' ∧
       amounts
       ≡ₚ map Amount_f64 (filter (λ e, strftime_bY (Date_f64 e) = lbl) evs) ∧
       total
       = group_sum
           (map Amount_f64
              (filter (λ e, strftime_bY (Date_f64 e) = lbl) evs))).
Proof.
  intros Hv Hperm. unfold monthly_f64.
  split; [|split; [|split; [|split]]].
  - rewrite !groupby_agg_keys. apply group_keys_perm.
    by apply fmap_Permutation, fmap_Permutation.
  - rewrite groupby_agg_keys. apply NoDup_group_keys.
  - intros e He. apply elem_of_groupby_agg. split.
    + rewrite map_map. cbn.
      by apply (list_elem_of_fmap_2 (λ e, strftime_bY (Date_f64 e))).
    + rewrite bucket_amounts_f64. do 2 f_equal. apply filter_ext_Forall.
      rewrite Forall_forall in Hv |- *. intros e' He'. split.
      * intros [Hy Hm]. unfold strftime_bY. by rewrite Hy, Hm.
      * intros Hl. apply strftime_bY_inj in Hl; [done|..].
        -- by destruct (valid_fields _ (Hv e' He')) as (_ & ? & _).
        -- by destruct (valid_fields _ (Hv e He)) as (_ & ? & _).
  - intros lbl total [Hk _]%elem_of_groupby_agg.
    rewrite map_map in Hk. cbn in Hk.
    apply list_elem_of_fmap in Hk as (e & -> & He). by exists e.
  - intros lbl total [Hk ->]%elem_of_groupby_agg.
    exists (map Amount_f64
              (filter (λ e, strftime_bY (Date_f64 e) = lbl) evs')).
    split; [|split].
    + apply elem_of_groupby_agg. split.
      * rewrite map_map in Hk |- *. cbn in Hk |- *.
        apply list_elem_of_fmap in Hk as (e & -> & He).
        apply (list_elem_of_fmap_2 (λ e, strftime_bY (Date_f64 e))).
        by rewrite <- Hperm.
      * by rewrite bucket_amounts_f64.
    + apply fmap_Permutation. by rewrite Hperm.
    + by rewrite bucket_amounts_f64.
Qed.

Lemma monthly_f64_buckets_witness :
  Forall (λ e, valid (Date_f64 e)) jan_events_f64 ∧
  monthly_f64 jan_events_f64 = [("Jan 2026"%string, 25.25%float)] ∧
  monthly_f64 (reverse jan_events_f64) = [("Jan 2026"%string, 25.25%float)] ∧
  map fst (monthly_f64 jan_events_f64)
  = map fst (monthly_f64 (reverse jan_events_f64)).
Proof.
  assert (Hv : Forall (λ e, valid (Date_f64 e)) jan_events_f64).
  { repeat constructor. }
  split; [exact Hv|].
  split; [vm_compute; reflexivity|]. split; [vm_compute; reflexivity|].
  exact (proj1 (monthly_f64_buckets jan_events_f64 (reverse jan_events_f64) Hv
                  (symmetry (reverse_Permutation jan_events_f64)))).
Defined.

End BucketingClaims.

(** * Further properties *)

(** ** The forecast for an arbitrary reference date *)

Section ForecastAnyDate.

Lemma schedule_labels_parse :
  map_Forall (λ _ months,
                Forall (λ m, is_Ok (strptime_b_month m) = true) months
                ∧ (0 < length months ≤ 4)%nat)
             known_div_schedule.
Proof. compute_done. Qed.

Lemma pay_date_of_Ok (today : date) (m : string) :
  valid today → year today + 2 ≤ MAXYEAR →
  is_Ok (strptime_b_month m) = true →
  is_Ok (pay_date_of today m) = true.
Proof.
  intros Hv Hy Hm. destruct (valid_fields _ Hv) as (Hyr & _ & _).
  unfold pay_date_of. destruct (strptime_b_month m) as [k|] eqn:Hk; [|done].
  cbn. rewrite datetime_15 by by eapply strptime_b_month_range.
  assert (Hr : year today ≤ resolve_year today k ≤ year today + 2).
  { rewrite resolve_year_compare. destruct (k ?= month today); lia. }
  unfold MINYEAR, MAXYEAR in *.
  destruct (Z.leb_spec 1 (resolve_year today k)); [|lia].
  destruct (Z.leb_spec (resolve_year today k) 9999); [|lia]. cbn.
  destruct (Datetime.leb today _); [|done].
  destruct (add_days_365 today Hv Hy) as (lim & -> & _). done.
Qed.

Lemma month_payments_length today r months m :
  (length (month_payments today r months m) ≤ 1)%nat.
Proof.
  unfold month_payments. destruct (pay_date_of today m) as [[d|]|]; cbn; lia.
Qed.

Lemma concat_length_le {A B} (f : A → list B) (l : list A) (n : nat) :
  (∀ x, length (f x) ≤ n)%nat → (length (concat (map f l)) ≤ n * length l)%nat.
Proof.
  intros Hf. induction l as [|x l IH]; cbn; [lia|].
  rewrite length_app. specialize (Hf x). lia.
Qed.

Lemma row_payments_length today r : (length (row_payments today r) ≤ 4)%nat.
Proof.
  unfold row_payments.
  destruct (known_div_schedule !! Slice (hold r)) as [months|] eqn:Hs; cbn; [|lia].
  destruct (schedule_labels_parse _ _ Hs) as [_ Hlen].
  pose proof (concat_length_le (month_payments today r months) months 1
                (month_payments_length today r months)). lia.
Qed.

Lemma row_body_payments_at (today : date) (r : row) :
  valid today → year today + 2 ≤ MAXYEAR →
  row_body today r [] = Ok (row_payments today r).
Proof.
  intros Hv Hy. unfold row_payments.
  destruct (known_div_schedule !! Slice (hold r)) as [months|] eqn:Hs.
  - rewrite (row_body_scheduled _ _ _ Hs).
    destruct (schedule_labels_parse _ _ Hs) as [Hok _].
    rewrite <- collect_all_Ok. f_equal. rewrite map_map.
    apply Forall_fmap_ext_1. eapply Forall_impl; [exact Hok|].
    intros m Hm. cbn in Hm. rewrite month_events_pay_date.
    pose proof (pay_date_of_Ok today m Hv Hy Hm) as Hp.
    unfold month_payments. by destruct (pay_date_of today m) as [[d|]|].
  - unfold row_body. by rewrite Hs.
Qed.

Lemma collect_app (rs1 rs2 : list (result (list event))) :
  collect (rs1 ++ rs2)
  = match collect rs1 with
    | Ok l => extend l (collect rs2)
    | Raise e => Raise e
    end.
Proof.
  induction rs1 as [|r rs1 IH]; cbn.
  - by destruct (collect rs2).
  - destruct r as [l|]; [|done]. rewrite IH.
    destruct (collect rs1) as [l1|]; cbn; [|done].
    destruct (collect rs2) as [l2|]; cbn; [|done]. by rewrite app_assoc.
Qed.

(** For every valid reference date up to the year 9997 the forecast does
    not raise, whatever the portfolio, and holds at most four events per
    holding. *)
Theorem forecast_never_raises (today : date) (df : list row) :
  valid today → year today + 2 ≤ MAXYEAR →
  ∃ evs, future_divs_at today df = Ok evs ∧ (length evs ≤ 4 * length df)%nat.
Proof.
  intros Hv Hy. exists (concat (map (row_payments today) df)). split.
  - rewrite future_divs_at_collect, <- collect_all_Ok.
    f_equal. rewrite map_map. apply map_ext. intros r.
    by apply row_body_payments_at.
  - apply concat_length_le. apply row_payments_length.
Qed.

Lemma forecast_never_raises_witness :
  valid today ∧ year today + 2 ≤ MAXYEAR ∧
  ∃ evs, future_divs_at today [bp_row; vod_row] = Ok evs ∧ (length evs ≤ 8)%nat.
Proof.
  assert (Hv : valid today) by reflexivity.
  assert (Hy : year today + 2 ≤ MAXYEAR) by (by vm_compute).
  split; [exact Hv|]. split; [exact Hy|].
  exact (forecast_never_raises today [bp_row; vod_row] Hv Hy).
Defined.

(** The forecast of two portfolios put one after the other is the forecast
    of the first followed by that of the second; if the first raises, so
    does the whole. *)
Theorem forecast_of_append (today : date) (a b : list row) :
  (∀ ea eb,
     future_divs_at today a = Ok ea → future_divs_at today b = Ok eb →
     future_divs_at today (a ++ b) = Ok (ea ++ eb)) ∧
  (∀ e, future_divs_at today a = Raise e →
        future_divs_at today (a ++ b) = Raise e).
Proof.
  rewrite !future_divs_at_collect, map_app, collect_app. split.
  - by intros ea eb -> ->.
  - by intros e ->.
Qed.

Lemma forecast_of_append_witness :
  future_divs_at today [bp_row; vod_row; bp_row]
  = Ok [payment bp_row quarterly_months (mkdate 2025 12 15);
        payment bp_row quarterly_months (mkdate 2025 12 15)].
Proof.
  exact (proj1 (forecast_of_append today [bp_row; vod_row] [bp_row])
           [payment bp_row quarterly_months (mkdate 2025 12 15)]
           [payment bp_row quarterly_months (mkdate 2025 12 15)]
           eq_refl eq_refl).
Defined.

(** Every event of a forecast comes from a scheduled month of a holding of
    the portfolio: it carries that holding's ticker and rounded amount, is
    dated the fifteenth of the month in the resolved year, and its date is
    neither before the reference date nor after the reference date plus
    365 days. *)
Theorem forecast_events_sound (today : date) (df : list row)
    (evs : list event) (e : event) :
  future_divs_at today df = Ok evs → e ∈ evs →
  ∃ r months m month_num limit,
    r ∈ df ∧ known_div_schedule !! Slice (hold r) = Some months ∧
    m ∈ months ∧ strptime_b_month m = Ok month_num ∧
    add_days today 365 = Ok limit ∧
    e = {| Date := mkdate (resolve_year today month_num) month_num 15;
           ev_Ticker := Slice (hold r);
           Amount := round (amount r months) 2 |} ∧
    Datetime.leb today (Date e) = true ∧
    Datetime.leb (Date e) limit = true.
Proof.
  intros Hdf Hin. rewrite future_divs_at_collect in Hdf.
  destruct (collect_Ok_elem _ _ _ Hdf Hin) as (l & Hl & Hel).
  apply list_elem_of_fmap in Hl as (r & Hl & Hr). symmetry in Hl.
  destruct (row_body_events_inv _ _ _ _ Hl Hel)
    as (months & m & lm & Hs & Hm & Hlm & Helm).
  destruct (month_events_inv _ _ _ _ _ _ Hlm Helm)
    as (k & lim & Hk & Hlim & Hle1 & Hle2 & He).
  exists r, months, m, k, lim. done.
Qed.

Lemma forecast_events_sound_witness :
  ∃ r months m month_num limit,
    r ∈ [bp_row] ∧ known_div_schedule !! Slice (hold r) = Some months ∧
    m ∈ months ∧ strptime_b_month m = Ok month_num ∧
    add_days today 365 = Ok limit ∧
    payment bp_row quarterly_months (mkdate 2025 12 15)
    = {| Date := mkdate (resolve_year today month_num) month_num 15;
         ev_Ticker := Slice (hold r);
         Amount := round (amount r months) 2 |}.
Proof.
  destruct (forecast_events_sound today [bp_row]
              [payment bp_row quarterly_months (mkdate 2025 12 15)]
              (payment bp_row quarterly_months (mkdate 2025 12 15))
              eq_refl ltac:(by left))
    as (r & months & m & k & lim & H1 & H2 & H3 & H4 & H5 & H6 & _).
  exists r, months, m, k, lim. done.
Defined.

End ForecastAnyDate.

(** ** The forecast of the script *)

Section ScriptForecast.

Lemma row_payments_window today r months :
  known_div_schedule !! Slice (hold r) = Some months →
  row_payments today r = map (payment r months) (months_in_window today months).
Proof.
  intros Hs. unfold row_payments. rewrite Hs.
  assert (H : ∀ ms, concat (map (month_payments today r months) ms)
                    = map (payment r months) (months_in_window today ms)).
  { unfold months_in_window. induction ms as [|m ms IH]; cbn; [done|].
    rewrite map_app, IH. f_equal.
    unfold month_payments. by destruct (pay_date_of today m) as [[d|]|]. }
  apply H.
Qed.

(** With the reference date of the script a schedule keeps at most one
    payment date: 15 December 2025, or 15 November 2026 for LGEN. *)
Lemma schedule_window_dates :
  map_Forall (λ k months,
                months_in_window today months = []
                ∨ months_in_window today months = [mkdate 2025 12 15]
                ∨ (k = "LGEN"%string
                   ∧ months_in_window today months = [mkdate 2026 11 15]))
             known_div_schedule.
Proof. compute_done. Qed.

Lemma row_payments_script (r : row) :
  (length (row_payments today r) ≤ 1)%nat ∧
  ∀ e, e ∈ row_payments today r →
       Date e = mkdate 2025 12 15
       ∨ (ev_Ticker e = "LGEN"%string ∧ Date e = mkdate 2026 11 15).
Proof.
  destruct (known_div_schedule !! Slice (hold r)) as [months|] eqn:Hs.
  - rewrite (row_payments_window _ _ _ Hs).
    destruct (schedule_window_dates _ _ Hs) as [->|[->|[Hk ->]]]; cbn.
    + split; [lia|]. by intros e ?%elem_of_nil.
    + split; [lia|]. intros e ->%list_elem_of_singleton. by left.
    + split; [lia|]. intros e ->%list_elem_of_singleton. by right.
  - unfold row_payments. rewrite Hs. cbn.
    split; [lia|]. by intros e ?%elem_of_nil.
Qed.

(** Whatever the portfolio, the forecast of the script holds at most one
    event per holding, and every event is dated 15 December 2025, or
    15 November 2026 for the ticker LGEN: the months from January to
    October never appear. *)
Theorem script_forecast_dates (df : list row) :
  ∃ evs,
    future_divs df = Ok evs ∧
    (length evs ≤ length df)%nat ∧
    ∀ e, e ∈ evs →
         Date e = mkdate 2025 12 15
         ∨ (ev_Ticker e = "LGEN"%string ∧ Date e = mkdate 2026 11 15).
Proof.
  exists (concat (map (row_payments today) df)).
  split; [apply future_divs_total|]. split.
  - pose proof (concat_length_le (row_payments today) df 1
                  (λ r, proj1 (row_payments_script r))). lia.
  - intros e (l & He & Hl)%elem_of_concat.
    apply list_elem_of_fmap in Hl as (r & -> & _).
    by apply (proj2 (row_payments_script r)).
Qed.

(** A holding of a scheduled ticker whose price is 0 (the quote was
    unavailable) and whose yield and quantity are finite still gets its
    events: one for each scheduled month whose fifteenth falls in the
    window, in the order of the schedule, each with the amount 0. *)
Theorem zero_price_zero_amount (today : date) (r : row)
    (months : list string) :
  valid today → year today + 2 ≤ MAXYEAR →
  known_div_schedule !! Slice (hold r) = Some months →
  price (live r) = Fin 0 →
  isfinite (yield (live r)) = true →
  isfinite (Owned_quantity (hold r)) = true →
  future_divs_at today [r]
  = Ok (map (λ d, {| Date := d; ev_Ticker := Slice (hold r);
                     Amount := Fin 0 |})
            (months_in_window today months)).
Proof.
  intros Hv Hyr Hs Hp Hy Hq.
  rewrite future_divs_at_collect. cbn [map collect].
  rewrite (row_body_payments_at today r Hv Hyr).
  rewrite (row_payments_window _ _ _ Hs). cbn [extend].
  rewrite app_nil_r. f_equal. apply map_ext. intros d.
  unfold payment. f_equal.
  destruct (schedule_labels_parse _ _ Hs) as [_ [Hlen _]].
  assert (Hla : last_annual r = Fin 0).
  { unfold last_annual. rewrite Hp. apply mul_zero_finite.
    by destruct (gtb _ _). }
  assert (Hshare : (Fin 0 * Owned_quantity (hold r))%num = Fin 0)
    by (by apply mul_zero_finite).
  unfold amount, quarterly. rewrite Hla.
  change (Fin 0 / of_Z 4)%num with (Fin 0). rewrite Hshare.
  rewrite mul_zero_finite; [done|].
  unfold of_Z, Num.div.
  assert (Hz : qzero (inject_Z (Z.of_nat (length months))) = false).
  { unfold qzero. destruct (Qeq_bool _ 0) eqn:E; [|done].
    apply Qeq_bool_eq in E. unfold Qeq in E. cbn in E. lia. }
  by rewrite Hz.
Qed.

Lemma zero_price_zero_amount_witness :
  known_div_schedule !! Slice (hold bp_unquoted_row) = Some quarterly_months ∧
  future_divs_at today [bp_unquoted_row]
  = Ok [{| Date := mkdate 2025 12 15; ev_Ticker := "BP"; Amount := Fin 0 |}].
Proof.
  split; [reflexivity|].
  exact (zero_price_zero_amount today bp_unquoted_row quarterly_months
           eq_refl ltac:(by vm_compute) eq_refl eq_refl eq_refl eq_refl).
Defined.

End ScriptForecast.

(** ** Order and total of the monthly buckets *)

Section BucketTotals.

Lemma label_le_total : Total label_le.
Proof. intros a b. apply String.leb_total. Qed.

Lemma Qsum_ext {A} (f g : A → Q) (l : list A) :
  (∀ x, x ∈ l → (f x == g x)%Q) → (Qsum (map f l) == Qsum (map g l))%Q.
Proof.
  unfold Qsum. induction l as [|x l IH]; intros H; cbn; [reflexivity|].
  rewrite IH, (H x) by (intros; try apply H; by constructor). reflexivity.
Qed.

Lemma Qsum_add_at {A} `{EqDecision A} (f : A → Q) (k0 : A) (q : Q) (ks : list A) :
  NoDup ks →
  (Qsum (map (λ k, f k + (if decide (k = k0) then q else 0)) ks)
   == Qsum (map f ks) + (if decide (k0 ∈ ks) then q else 0))%Q.
Proof.
  unfold Qsum. induction 1 as [|k ks Hk _ IH]; cbn.
  - destruct (decide (k0 ∈ [])) as [?%elem_of_nil|]; [done|]. ring.
  - rewrite IH. destruct (decide (k = k0)) as [->|Hne].
    + destruct (decide (k0 ∈ ks)); [done|].
      destruct (decide (k0 ∈ k0 :: ks)) as [|[]]; [ring|by left].
    + destruct (decide (k0 ∈ ks)) as [Hin|Hnin].
      * destruct (decide (k0 ∈ k :: ks)) as [|[]]; [ring|by right].
      * destruct (decide (k0 ∈ k :: ks)) as [[?|?]%elem_of_cons|];
          [congruence|done|ring].
Qed.

(** Summing the groups of a keyed list over a duplicate-free list of keys
    that covers it gives the sum of the list. *)
Lemma Qsum_groups (items : list (string * Q)) (ks : list string) :
  NoDup ks → (∀ it, it ∈ items → it.1 ∈ ks) →
  (Qsum (map (λ k, Qsum (map snd (filter (λ it, it.1 = k) items))) ks)
   == Qsum (map snd items))%Q.
Proof.
  intros Hnd. induction items as [|[k0 q] items IH]; intros Hcov.
  - clear Hcov Hnd. cbn. unfold Qsum.
    induction ks as [|k ks IHk]; cbn; [reflexivity|]. rewrite IHk. ring.
  - rewrite (Qsum_ext _ (λ k, Qsum (map snd (filter (λ it, it.1 = k) items))
                              + (if decide (k = k0) then q else 0))%Q).
    + rewrite (Qsum_add_at _ k0 q ks Hnd), IH.
      * destruct (decide (k0 ∈ ks)) as [|[]].
        -- unfold Qsum. cbn. ring.
        -- apply (Hcov (k0, q)). by left.
      * intros it Hit. apply Hcov. by right.
    + intros k _. rewrite filter_cons. cbn [fst].
      destruct (decide (k0 = k)) as [->|Hne].
      * destruct (decide (k = k)); [|done]. unfold Qsum. cbn. ring.
      * destruct (decide (k = k0)); [congruence|]. ring.
Qed.

Lemma finite_list (xs : list num) :
  Forall (λ x, isfinite x = true) xs → xs = map Fin (map fin_val xs).
Proof.
  induction 1 as [|x xs Hx _ IH]; [done|]. cbn. rewrite <- IH.
  by destruct x.
Qed.

Lemma fin_val_Series_sum (qs : list Q) :
  Series_sum (map Fin qs) = Fin (fin_val (Series_sum (map Fin qs))) ∧
  (fin_val (Series_sum (map Fin qs)) == Qsum qs)%Q.
Proof. by destruct (Series_sum_Fin qs) as (b & -> & Hb). Qed.

Lemma filter_key_finite (items : list (string * num)) (k : string) :
  Forall (λ it, isfinite it.2 = true) items →
  map snd (filter (λ it, it.1 = k) items)
  = map Fin (map snd (filter (λ it, it.1 = k)
                        (map (λ it, (it.1, fin_val it.2)) items))).
Proof.
  induction 1 as [|[k0 x] items Hx _ IH]; [done|]. cbn [map].
  rewrite !filter_cons. cbn [fst snd] in *.
  destruct (decide (k0 = k)); cbn [map snd]; rewrite IH; [|done].
  by destruct x.
Qed.

(** The totals of a [groupby] add up to the total of the grouped values. *)
Lemma groupby_sum_total (items : list (string * num)) :
  Forall (λ it, isfinite it.2 = true) items →
  Num.eqb (Series_sum (map snd (groupby_sum items)))
          (Series_sum (map snd items)) = true.
Proof.
  intros Hfin.
  set (qitems := map (λ it : string * num, (it.1, fin_val it.2)) items).
  set (group := λ k, map snd (filter (λ it : string * Q, it.1 = k) qitems)).
  assert (Hall : map snd items = map Fin (map snd qitems)).
  { unfold qitems. rewrite !map_map. cbn.
    induction Hfin as [|[k x] items Hx _ IH]; [done|]. cbn in *.
    rewrite <- IH. by destruct x. }
  assert (Hbuckets : map snd (groupby_sum items)
            = map Fin (map (λ k, fin_val (Series_sum (map Fin (group k))))
                           (group_keys (map fst items)))).
  { unfold groupby_sum. rewrite !map_map. apply map_ext. intros k. cbn.
    rewrite (filter_key_finite items k Hfin).
    apply (fin_val_Series_sum (group k)). }
  rewrite Hbuckets, Hall.
  destruct (Series_sum_Fin
              (map (λ k, fin_val (Series_sum (map Fin (group k))))
                   (group_keys (map fst items)))) as (b & -> & Hb).
  destruct (Series_sum_Fin (map snd qitems)) as (a & -> & Ha).
  cbn. apply Qeq_eq_bool. rewrite Hb, Ha.
  rewrite (Qsum_ext _ (λ k, Qsum (group k)))
    by (intros k _; apply (fin_val_Series_sum (group k))).
  apply Qsum_groups; [apply NoDup_group_keys|].
  intros it Hit. apply elem_of_group_keys.
  unfold qitems in Hit. apply list_elem_of_fmap in Hit as (it' & -> & Hit').
  cbn. by apply (list_elem_of_fmap_2 fst).
Qed.

(** The monthly buckets come in ascending order of their label read as
    text (so "Apr 2026" precedes "Dec 2025"), and, when every amount is
    finite, the bucket totals add up to the total of all the amounts. *)
Theorem monthly_order_and_total (evs : list event) :
  Sorted label_le (map fst (monthly evs)) ∧
  (Forall (λ e, isfinite (Amount e) = true) evs →
   Num.eqb (Series_sum (map snd (monthly evs)))
           (Series_sum (map Amount evs)) = true).
Proof.
  unfold monthly. split.
  - rewrite groupby_sum_keys.
    apply (@Sorted_merge_sort _ label_le _ label_le_total).
  - intros Hfin.
    replace (map Amount evs)
      with (map snd (map (λ e, (strftime_bY (Date e), Amount e)) evs))
      by (rewrite map_map; by apply map_ext).
    apply groupby_sum_total. by apply Forall_fmap.
Qed.

Lemma monthly_order_and_total_witness :
  monthly [{| Date := mkdate 2025 12 15; ev_Ticker := "BP";
              Amount := Fin (61 # 4) |};
           {| Date := mkdate 2026 4 15; ev_Ticker := "MNG";
              Amount := Fin 10 |}]
  = [("Apr 2026"%string, Fin 10); ("Dec 2025"%string, Fin (61 # 4))] ∧
  Num.eqb (Series_sum [Fin 10; Fin (61 # 4)])
          (Series_sum [Fin (61 # 4); Fin 10]) = true.
Proof.
  split; [reflexivity|].
  refine (proj2 (monthly_order_and_total
                   [{| Date := mkdate 2025 12 15; ev_Ticker := "BP";
                       Amount := Fin (61 # 4) |};
                    {| Date := mkdate 2026 4 15; ev_Ticker := "MNG";
                       Amount := Fin 10 |}]) _).
  repeat constructor.
Defined.

End BucketTotals.

(** ** The enriched table and the headline figures *)

Section Enriched.

Variable yahoo_chart : string → result (num * num).
Variable get_analyst_and_yield : string → string * option num * num.

(** The fetch loop and the enrichment end in one of three ways.  On the
    empty table the price column is missing.  On a table with rows whose
    labels are all below the number of rows there is one row per holding,
    in order, each with the quote and fundamentals fetched for its own
    holding.  On a table of up to 10^8 rows, at the first row whose label
    is not below the number of rows, the progress bar refuses its value. *)
Theorem enrich_outcome (df : list holding) :
  (df = [] → enrich yahoo_chart get_analyst_and_yield df = Raise KeyError) ∧
  (df ≠ [] →
   Forall (λ h, 0 ≤ Index h < Z.of_nat (length df)) df →
   ∃ rows,
     enrich yahoo_chart get_analyst_and_yield df = Ok rows ∧
     map hold rows = df ∧
     Forall (λ r, live r
                  = fetch_row yahoo_chart get_analyst_and_yield (hold r)) rows) ∧
  (∀ before h after,
     df = before ++ h :: after →
     Z.of_nat (length df) ≤ 100000000 →
     Forall (λ h', 0 ≤ Index h' < Z.of_nat (length df)) before →
     Z.of_nat (length df) ≤ Index h →
     enrich yahoo_chart get_analyst_and_yield df
     = Raise StreamlitAPIException).
Proof.
  split; [by intros ->|]. split.
  - intros Hne Hl. eexists. split; [by apply enrich_nonempty|]. split.
    + rewrite map_map. cbn. apply map_id.
    + apply Forall_fmap, Forall_true. done.
  - intros before h after -> Hn Hb Hh. unfold enrich.
    rewrite fetch_loop_rejects; [done| |].
    + eapply Forall_impl; [exact Hb|].
      intros h'. apply label_in_range_accepted.
    + apply label_out_of_range_rejected; [|done].
      rewrite length_app in *. cbn in *. lia.
Qed.

(** With finite market values and costs, the gains of the rows add up to
    the difference shown under the portfolio value, total value minus
    total cost. *)
Theorem unrealised_adds_up (df : list holding) (rows : list row) :
  enrich yahoo_chart get_analyst_and_yield df = Ok rows →
  Forall (λ r, isfinite (Market_Value r) = true
               ∧ isfinite (Value (hold r)) = true) rows →
  Num.eqb (Series_sum (map Unrealised rows))
          (total_now rows - total_cost rows) = true.
Proof.
  intros He Hfin.
  assert (Hu : ∀ r, r ∈ rows →
                    Unrealised r = (Market_Value r - Value (hold r))%num).
  { apply enrich_Ok in He as ->.
    by intros r (h & -> & _)%list_elem_of_fmap. }
  clear He.
  assert (H : ∃ us ms vs,
             map Unrealised rows = map Fin us ∧
             map Market_Value rows = map Fin ms ∧
             map (λ r, Value (hold r)) rows = map Fin vs ∧
             (Qsum us == Qsum ms - Qsum vs)%Q).
  { induction Hfin as [|r rows [Hm Hv] _ IH].
    - exists [], [], []. do 3 (split; [done|]). unfold Qsum. cbn. ring.
    - destruct IH as (us & ms & vs & E1 & E2 & E3 & E4).
      { intros r' Hr'. apply Hu. by right. }
      specialize (Hu r ltac:(by left)).
      destruct (Market_Value r) as [m| |] eqn:Em; try discriminate.
      destruct (Value (hold r)) as [v| |] eqn:Ev; try discriminate.
      exists (Qred (m + Qred (- v)) :: us), (m :: ms), (v :: vs).
      cbn [map]. rewrite Hu, Em, Ev, E1, E2, E3. do 3 (split; [done|]).
      unfold Qsum in *. cbn. rewrite E4, !Qred_correct. ring. }
  destruct H as (us & ms & vs & E1 & E2 & E3 & E4).
  unfold total_now, total_cost. rewrite E1, E2, E3.
  destruct (Series_sum_Fin us) as (bu & -> & Hbu).
  destruct (Series_sum_Fin ms) as (bm & -> & Hbm).
  destruct (Series_sum_Fin vs) as (bv & -> & Hbv).
  cbn. apply Qeq_eq_bool. rewrite !Qred_correct, Hbu, Hbm, Hbv, E4. ring.
Qed.

End Enriched.

Section EnrichedWitnesses.

Lemma enrich_outcome_witness :
  enrich demo_chart demo_fundamentals [] = Raise KeyError ∧
  (∃ rows,
     enrich demo_chart demo_fundamentals [vod_holding; bp_second] = Ok rows ∧
     map hold rows = [vod_holding; bp_second]) ∧
  enrich demo_chart demo_fundamentals [vod_below_total]
  = Raise StreamlitAPIException.
Proof.
  split; [|split].
  - by apply (proj1 (enrich_outcome demo_chart demo_fundamentals [])).
  - destruct (proj1 (proj2 (enrich_outcome demo_chart demo_fundamentals
                              [vod_holding; bp_second])))
      as (rows & He & Hh & _); [done| |by exists rows].
    repeat constructor; cbn; lia.
  - apply (proj2 (proj2 (enrich_outcome demo_chart demo_fundamentals
                           [vod_below_total])) [] vod_below_total []);
      [reflexivity|cbn; lia|constructor|cbn; lia].
Defined.

Lemma unrealised_adds_up_witness :
  enrich demo_chart demo_fundamentals [vod_holding; bp_second]
  = Ok [vod_row_beside_bp; bp_second_row] ∧
  Num.eqb (Series_sum (map Unrealised [vod_row_beside_bp; bp_second_row]))
          (total_now [vod_row_beside_bp; bp_second_row] - total_cost [vod_row_beside_bp; bp_second_row]) = true.
Proof.
  split; [reflexivity|].
  apply (unrealised_adds_up demo_chart demo_fundamentals
           [vod_holding; bp_second] [vod_row_beside_bp; bp_second_row] eq_refl).
  repeat constructor.
Defined.

Lemma positive_total_weights_witness :
  enrich demo_chart demo_fundamentals [bp_holding] = Ok [bp_row] ∧
  Forall (λ r, geb (Weight r) (Fin 0) = true) [bp_row] ∧
  Num.eqb (Series_sum (map Weight [bp_row])) (Fin 1) = true.
Proof.
  split; [reflexivity|].
  apply (positive_total_weights demo_chart demo_fundamentals
           [bp_holding] [bp_row] eq_refl); [|reflexivity].
  repeat constructor. exists (1 # 2)%Q. split; [reflexivity|]. by vm_compute.
Defined.

End EnrichedWitnesses.

(** ** Forward yield and the run as a whole *)

Section Headline.

Lemma Series_dot_Fin (ms ys : list Q) :
  ∃ d, Series_dot (map Fin ms) (map Fin ys) = Fin d ∧
       (d == Qsum (zip_with (λ m y, Qred (m * y)) ms ys))%Q.
Proof.
  unfold Series_dot.
  assert (Hz : zip_with Num.mul (map Fin ms) (map Fin ys)
               = map Fin (zip_with (λ m y, Qred (m * y)) ms ys)).
  { revert ys. induction ms as [|m ms IH]; intros [|y ys]; cbn; try done.
    by rewrite IH. }
  rewrite Hz.
  destruct (foldl_add_Fin (zip_with (λ m y, Qred (m * y)) ms ys) 0)
    as (d & -> & Hd).
  exists d. split; [done|]. rewrite Hd. ring.
Qed.

(** In exact arithmetic the forward yield is a weighted average: with
    finite, non-negative market values of positive total, it lies between
    any two bounds that enclose the yields of all holdings.  (In float64
    the quotient may leave the bounds by a rounding error.) *)
Theorem forward_yield_between (df : list row) (lo hi : Q) :
  Forall (λ r, nonneg (Market_Value r)
               ∧ ∃ y, yield (live r) = Fin y ∧ (lo <= y <= hi)%Q) df →
  gtb (total_now df) (Fin 0) = true →
  geb (est_forward_yield df) (Fin lo) = true ∧
  geb (Fin hi) (est_forward_yield df) = true.
Proof.
  intros Hdf Hpos.
  assert (H : ∃ ms ys,
             map Market_Value df = map Fin ms ∧
             map (λ r, yield (live r)) df = map Fin ys ∧
             (lo * Qsum ms <= Qsum (zip_with (λ m y, Qred (m * y)) ms ys))%Q ∧
             (Qsum (zip_with (λ m y, Qred (m * y)) ms ys) <= hi * Qsum ms)%Q).
  { clear Hpos. induction Hdf as [|r df [(m & Hm & Hm0) (y & Hy & Hlo & Hhi)] _ IH].
    - exists [], []. do 2 (split; [done|]). unfold Qsum. cbn. split; lra.
    - destruct IH as (ms & ys & E1 & E2 & L & U).
      exists (m :: ms), (y :: ys). cbn [map]. rewrite Hm, Hy, E1, E2.
      do 2 (split; [done|]). unfold Qsum in *. cbn.
      rewrite Qred_correct. split; nra. }
  destruct H as (ms & ys & E1 & E2 & L & U).
  unfold est_forward_yield, total_now in *. rewrite E1 in *. rewrite E2.
  destruct (Series_sum_Fin ms) as (t & Ht & Hsum). rewrite Ht in *.
  destruct (Series_dot_Fin ms ys) as (d & -> & Hd).
  cbn in Hpos. apply negb_true_iff in Hpos.
  assert (Htpos : (0 < t)%Q).
  { apply Qnot_le_lt. intros Hle. apply Qle_bool_iff in Hle. congruence. }
  assert (Hnz : qzero t = false).
  { unfold qzero. destruct (Qeq_bool t 0) eqn:E; [|done].
    apply Qeq_bool_eq in E. lra. }
  cbn. rewrite Hnz. cbn. rewrite <- Hsum, <- Hd in *. split.
  - apply Qle_bool_iff. rewrite Qred_correct. by apply Qle_shift_div_l.
  - apply Qle_bool_iff. rewrite Qred_correct. by apply Qle_shift_div_r.
Qed.

Lemma forward_yield_between_witness :
  gtb (total_now [vod_row_beside_bp; bp_second_row]) (Fin 0) = true ∧
  geb (est_forward_yield [vod_row_beside_bp; bp_second_row]) (Fin 0) = true ∧
  geb (Fin (1 # 4)) (est_forward_yield [vod_row_beside_bp; bp_second_row]) = true.
Proof.
  split; [reflexivity|].
  apply (forward_yield_between [vod_row_beside_bp; bp_second_row] 0 (1 # 4));
    [|reflexivity].
  repeat constructor.
  - exists 0%Q. split; [reflexivity|]. by vm_compute.
  - exists 0%Q. split; [reflexivity|]. split; by vm_compute.
  - exists (1 # 2)%Q. split; [reflexivity|]. by vm_compute.
  - exists (1 # 4)%Q. split; [reflexivity|]. split; by vm_compute.
Defined.

End Headline.

(** ** Analyst data and yield *)

Section FundamentalsFacts.

Variable fmp_rating : string → result (list rating_entry).
Variable fmp_quote : string → result (list quote_entry).
Variable title : string → string.

(** When either request of the fundamentals fails, the row gets the
    consensus "N/A", no target and the yield 0, and the forecast values
    the holding at the default yield of 4 per cent. *)
Theorem failed_fundamentals_default
    (yahoo_chart : string → result (num * num)) (h : holding) (r : row) :
  is_Ok (fmp_rating (Slice h)) = false ∨ is_Ok (fmp_quote (Slice h)) = false →
  live r
  = fetch_row yahoo_chart (get_analyst_and_yield fmp_rating fmp_quote title) h →
  consensus (live r) = "N/A"%string ∧ target (live r) = None ∧
  yield (live r) = Fin 0 ∧
  last_annual r = (price (live r) * dec 4 2)%num.
Proof.
  intros Hfail Hl.
  assert (Hs : get_analyst_and_yield fmp_rating fmp_quote title (Slice h)
               = ("N/A"%string, None, of_Z 0)).
  { unfold get_analyst_and_yield.
    destruct (fmp_rating (Slice h)) as [rating|]; [|done].
    destruct Hfail as [?|Hfail]; [done|].
    destruct (fmp_quote (Slice h)) as [quote|]; [done|]. by destruct rating. }
  unfold fetch_row in Hl. rewrite Hs in Hl.
  destruct (get_live_price yahoo_chart (Ticker h)) as [p prev].
  unfold last_annual. rewrite Hl. cbn. done.
Qed.

End FundamentalsFacts.

Section FundamentalsWitnesses.

Lemma failed_fundamentals_default_witness :
  is_Ok (fmp_quote_demo (Slice vod_holding)) = false ∧
  yield (live vod_row) = Fin 0 ∧
  last_annual vod_row = (price (live vod_row) * dec 4 2)%num.
Proof.
  split; [reflexivity|].
  destruct (failed_fundamentals_default fmp_rating_demo fmp_quote_demo
              ascii_title demo_chart vod_holding vod_row (or_intror eq_refl) eq_refl)
    as (_ & _ & Hy & Hl).
  split; assumption.
Defined.

End FundamentalsWitnesses.

(** ** The normaliser *)

Section NormaliserFacts.

Variable parse_float : string → option num.

Lemma labelled_fst (raw : list raw_row) :
  (labelled raw).*1 = seq 0 (length raw).
Proof.
  unfold labelled. rewrite fmap_imap.
  rewrite <- (list_fmap_id (seq 0 (length raw))).
  rewrite <- (imap_seq_0 raw id). by apply imap_ext.
Qed.

Lemma elem_of_labelled (raw : list raw_row) (i : nat) (r : raw_row) :
  (i, r) ∈ labelled raw ↔ raw !! i = Some r.
Proof.
  unfold labelled. rewrite elem_of_lookup_imap. split.
  - by intros (j & y & [= -> ->] & Hy).
  - intros Hr. by exists i, r.
Qed.

Lemma filter_all {A} (P : A → Prop) `{∀ x, Decision (P x)} (l : list A) :
  Forall P l → filter P l = l.
Proof.
  induction 1 as [|x l Hx _ IH]; [done|].
  rewrite filter_cons. destruct (decide (P x)); [|done]. by rewrite IH.
Qed.

Lemma filter_none {A} (P : A → Prop) `{∀ x, Decision (P x)} (l : list A) :
  Forall (λ x, ¬ P x) l → filter P l = [].
Proof.
  induction 1 as [|x l Hx _ IH]; [done|].
  rewrite filter_cons. by destruct (decide (P x)).
Qed.

Lemma first_exists {A} (P : A → Prop) `{∀ x, Decision (P x)} (l : list A) :
  Exists P l →
  ∃ before h after, l = before ++ h :: after ∧ Forall (λ x, ¬ P x) before ∧ P h.
Proof.
  induction l as [|x l IH]; [by intros ?%Exists_nil|].
  intros He. destruct (decide (P x)) as [Hx|Hx].
  - by exists [], x, l.
  - apply Exists_cons in He as [?|He]; [done|].
    destruct (IH He) as (before & h & after & -> & Hb & Hh).
    exists (x :: before), h, after. split; [done|]. split; [|done].
    by constructor.
Qed.

(** The fetch loop stops at the first label that is not below the number
    of rows. *)
Lemma enrich_rejects yahoo_chart get_analyst_and_yield (df : list holding) :
  Z.of_nat (length df) ≤ 100000000 →
  Forall (λ h, 0 ≤ Index h) df →
  Exists (λ h, Z.of_nat (length df) ≤ Index h) df →
  enrich yahoo_chart get_analyst_and_yield df = Raise StreamlitAPIException.
Proof.
  intros Hn H0 He.
  destruct (first_exists _ df He) as (before & h & after & E & Hb & Hh).
  unfold enrich. rewrite E at 2. rewrite fetch_loop_rejects; [done| |].
  - rewrite E in H0. apply Forall_app in H0 as [H0 _].
    eapply Forall_impl; [exact (proj2 (Forall_and _ _) (conj H0 Hb))|]. cbn.
    intros h' [? ?]. apply label_in_range_accepted. lia.
  - apply label_out_of_range_rejected; [|done].
    rewrite E, length_app in *. cbn in *. lia.
Qed.

(** A "Total" row above a row that is kept leaves a label that is not
    below the number of rows kept. *)
Lemma total_above_label (a b : list raw_row) (t : raw_row) :
  raw_Slice t = "Total"%string →
  Exists (λ r, raw_Slice r ≠ "Total"%string) b →
  let kept := filter (λ ir : nat * raw_row, raw_Slice ir.2 ≠ "Total"%string)
                     (labelled (a ++ t :: b)) in
  Exists (λ ir, (length kept ≤ ir.1)%nat) kept.
Proof.
  intros Ht Hb kept.
  destruct (decide (Exists (λ ir : nat * raw_row,
                              (length kept ≤ ir.1)%nat) kept)) as [|Hno];
    [done|exfalso].
  apply not_Exists_Forall in Hno; [|intros ?; apply _].
  assert (Hkept : ∀ i r, (i, r) ∈ kept ↔
                         (a ++ t :: b) !! i = Some r
                         ∧ raw_Slice r ≠ "Total"%string).
  { intros i r. unfold kept.
    rewrite list_elem_of_filter, elem_of_labelled. cbn. tauto. }
  assert (Hnd : NoDup kept.*1).
  { apply (sublist_NoDup kept.*1 (labelled (a ++ t :: b)).*1).
    - rewrite labelled_fst. apply NoDup_seq.
    - apply fmap_sublist, sublist_filter. }
  assert (Hperm : kept.*1 ≡ₚ seq 0 (length kept)).
  { apply submseteq_length_Permutation; [|by rewrite length_fmap, length_seq].
    apply NoDup_submseteq; [done|].
    intros i ([i' r] & -> & Hir)%list_elem_of_fmap. cbn.
    rewrite Forall_forall in Hno. specialize (Hno _ Hir). cbn in Hno.
    apply elem_of_seq. lia. }
  apply Exists_exists in Hb as (x & Hx & Hreal).
  apply list_elem_of_lookup in Hx as [j Hj].
  assert (Hin : (length a + S j, x)%nat ∈ kept).
  { apply Hkept. split; [|done].
    rewrite lookup_app_r by lia.
    replace (length a + S j - length a)%nat with (S j) by lia. done. }
  assert (Hlt : (length a + S j < length kept)%nat).
  { rewrite Forall_forall in Hno. specialize (Hno _ Hin). cbn in Hno. lia. }
  assert (Ha : length a ∈ kept.*1).
  { rewrite Hperm. apply elem_of_seq. lia. }
  apply list_elem_of_fmap in Ha as ([i r] & Hi & Hir). cbn in Hi. subst i.
  apply Hkept in Hir as [Hl Hr].
  rewrite lookup_app_r in Hl by lia.
  replace (length a - length a)%nat with 0%nat in Hl by lia.
  cbn in Hl. congruence.
Qed.

(** The cleaned table and the fetch loop.  A table with rows and no text
    in the Name column stops at line 32.  Otherwise no holding is called
    "Total".  When the "Total" rows all stand below the holdings, the
    holdings are kept in order with the labels 0, 1, ... and the fetch
    loop goes through.  When a "Total" row stands above a holding, in a
    table of up to 10^8 rows, the fetch loop raises at the progress bar. *)
Theorem normalise_labels_and_fetch (raw : list raw_row) :
  (raw ≠ [] → Forall (λ r, raw_Name r = None) raw →
   normalise parse_float raw = Raise AttributeError) ∧
  (∀ df, normalise parse_float raw = Ok df →
     Forall (λ h, Slice h ≠ "Total"%string) df ∧
     (∀ kept totals,
        raw = kept ++ totals → kept ≠ [] →
        Forall (λ r, raw_Slice r ≠ "Total"%string) kept →
        Forall (λ r, raw_Slice r = "Total"%string) totals →
        map Slice df = map raw_Slice kept ∧
        map Index df = map Z.of_nat (seq 0 (length kept)) ∧
        ∀ yahoo_chart get_analyst_and_yield,
          is_Ok (enrich yahoo_chart get_analyst_and_yield df) = true) ∧
     (∀ a t b,
        raw = a ++ t :: b → raw_Slice t = "Total"%string →
        Exists (λ r, raw_Slice r ≠ "Total"%string) b →
        Z.of_nat (length raw) ≤ 100000000 →
        ∀ yahoo_chart get_analyst_and_yield,
          enrich yahoo_chart get_analyst_and_yield df
          = Raise StreamlitAPIException)).
Proof.
  split.
  { intros Hne Hnone. unfold normalise.
    assert (E : name_is_object raw = false); [|by rewrite E].
    destruct raw as [|r raw]; [done|]. unfold name_is_object.
    apply not_true_iff_false. intros (x & Hx & Hs)%existsb_exists.
    apply list_elem_of_In in Hx. rewrite Forall_forall in Hnone.
    rewrite (Hnone x Hx) in Hs. by cbn in Hs. }
  intros df. unfold normalise.
  destruct (name_is_object raw); [|done]. intros [= <-].
  set (mk := λ ir : nat * raw_row, _).
  split; [|split].
  - apply Forall_fmap, Forall_forall. intros [i r] Hir.
    by apply list_elem_of_filter in Hir as [? _].
  - intros kept totals -> Hne Hk Ht.
    assert (Hf : filter (λ ir : nat * raw_row,
                           raw_Slice ir.2 ≠ "Total"%string)
                        (labelled (kept ++ totals)) = labelled kept).
    { unfold labelled. rewrite imap_app, filter_app.
      rewrite filter_all, filter_none; [by rewrite app_nil_r| |].
      - apply Forall_forall.
        intros x (j & r & -> & Hr)%elem_of_lookup_imap. cbn.
        rewrite Forall_forall in Ht. intros Hx. apply Hx, Ht.
        by eapply list_elem_of_lookup_2.
      - apply Forall_forall.
        intros x (j & r & -> & Hr)%elem_of_lookup_imap. cbn.
        rewrite Forall_forall in Hk. apply Hk.
        by eapply list_elem_of_lookup_2. }
    rewrite Hf.
    assert (Hs : map Slice (map mk (labelled kept)) = map raw_Slice kept).
    { unfold labelled. rewrite map_map.
      etransitivity; [apply (fmap_imap (λ i r, (i, r)))|].
      apply (imap_const raw_Slice). }
    assert (Hi : map Index (map mk (labelled kept))
                 = map Z.of_nat (seq 0 (length kept))).
    { rewrite <- labelled_fst. rewrite map_map.
      symmetry. apply (map_map fst Z.of_nat). }
    split; [done|]. split; [done|].
    intros yahoo_chart get_analyst_and_yield.
    rewrite enrich_nonempty; [done| |].
    + unfold labelled. destruct kept; done.
    + rewrite length_map. unfold labelled at 1. rewrite length_imap.
      apply Forall_forall. intros h Hh.
      assert (Hx : Index h ∈ map Index (map mk (labelled kept))).
      { by apply (list_elem_of_fmap_2 Index). }
      rewrite Hi in Hx.
      apply list_elem_of_fmap in Hx as (k & -> & Hk'%elem_of_seq). lia.
  - intros a t b -> Ht Hb Hn yahoo_chart get_analyst_and_yield.
    pose proof (total_above_label a b t Ht Hb) as Hex. cbv zeta in Hex.
    set (kept := filter _ _) in *.
    assert (Hlen : (length kept ≤ length (a ++ t :: b))%nat).
    { unfold kept. etransitivity; [apply length_filter|].
      unfold labelled. by rewrite length_imap. }
    apply enrich_rejects.
    + rewrite length_map. lia.
    + apply Forall_fmap, Forall_true. intros ir. unfold mk. cbn. lia.
    + rewrite length_map. apply Exists_fmap.
      eapply Exists_impl; [exact Hex|]. intros ir Hir. unfold compose, mk. cbn in *. lia.
Qed.

End NormaliserFacts.

Lemma normalise_labels_and_fetch_witness :
  normalise (λ _, None) [total_raw; vod_raw] = Ok [vod_below_total] ∧
  enrich demo_chart demo_fundamentals [vod_below_total]
  = Raise StreamlitAPIException.
Proof.
  split; [reflexivity|].
  apply (proj2 (proj2 (proj2 (normalise_labels_and_fetch (λ _, None)
                                [total_raw; vod_raw]) [vod_below_total]
                               eq_refl)) [] total_raw [vod_raw]);
    [reflexivity|reflexivity| |cbn; lia].
  apply Exists_cons_hd. discriminate.
Defined.

Section NameStripping.

Lemma last_close_none (s : string) :
  has_char ")" s = false → last_close s = None.
Proof.
  induction s as [|c s IH]; cbn [has_char last_close]; [done|].
  intros [Hc Hs]%orb_false_iff. rewrite (IH Hs).
  destruct (Ascii.eqb c newline); [done|].
  by rewrite Ascii.eqb_sym, Hc.
Qed.

Lemma match_len_none (s : string) :
  has_char ")" s = false → match_len s = None.
Proof.
  intros H. unfold match_len.
  destruct s as [|c0 [|c1 [|c2 rest]]]; try by repeat case_match.
  cbn [has_char] in H. apply orb_false_iff in H as [_ H].
  apply orb_false_iff in H as [_ H]. apply orb_false_iff in H as [_ H].
  rewrite (last_close_none _ H). by repeat case_match.
Qed.

Lemma sub_paren_length (skip : nat) (s : string) :
  (String.length (sub_paren skip s) ≤ String.length s)%nat.
Proof.
  revert skip. induction s as [|c s IH]; intros skip; cbn [sub_paren]; [done|].
  destruct skip as [|k].
  - destruct (match_len (String c s)); cbn [String.length].
    + specialize (IH (n - 1)%nat). lia.
    + specialize (IH 0%nat). lia.
  - cbn [String.length]. specialize (IH k). lia.
Qed.

(** Stripping never lengthens a name, and a name without a closing
    parenthesis is left as it is. *)
Theorem str_replace_paren_unchanged (s : string) :
  (String.length (str_replace_paren s) ≤ String.length s)%nat ∧
  (has_char ")" s = false → str_replace_paren s = s).
Proof.
  split; [apply sub_paren_length|].
  unfold str_replace_paren. induction s as [|c s IH]; [done|].
  intros H. cbn [sub_paren]. rewrite (match_len_none _ H).
  cbn [has_char] in H. apply orb_false_iff in H as [_ H]. by rewrite IH.
Qed.

Lemma str_replace_paren_unchanged_witness :
  str_replace_paren "Legal & General" = "Legal & General"%string.
Proof.
  exact (proj2 (str_replace_paren_unchanged "Legal & General") eq_refl).
Defined.

Lemma last_close_line (y : string) :
  has_char newline y = false →
  last_close (y +:+ ")") = Some (S (String.length y)).
Proof.
  induction y as [|c y IH]; [done|].
  change (String c y +:+ ")") with (String c (y +:+ ")")).
  cbn [has_char last_close String.length].
  intros [Hc Hy]%orb_false_iff. rewrite (IH Hy).
  by rewrite Ascii.eqb_sym, Hc.
Qed.

Lemma sub_paren_skip_all (s : string) (k : nat) :
  (String.length s ≤ k)%nat → sub_paren k s = EmptyString.
Proof.
  revert k. induction s as [|c s IH]; intros k Hk; cbn [sub_paren]; [done|].
  cbn [String.length] in Hk. destruct k as [|k]; [lia|]. apply IH. lia.
Qed.

Lemma length_append (a b : string) :
  String.length (a +:+ b) = (String.length a + String.length b)%nat.
Proof.
  induction a as [|c a IH]; [done|].
  change (String c a +:+ b) with (String c (a +:+ b)).
  cbn [String.length]. by rewrite IH.
Qed.

Lemma sub_paren_cons (c : ascii) (s : string) :
  sub_paren 0 (String c s)
  = match match_len (String c s) with
    | Some n => sub_paren (n - 1) s
    | None => String c (sub_paren 0 s)
    end.
Proof. reflexivity. Qed.

Lemma match_len_open (c : ascii) (rest : string) :
  match_len (String " " (String "(" (String c rest)))
  = if Ascii.eqb c newline then None
    else match last_close rest with
         | Some n => Some (3 + n)%nat
         | None => None
         end.
Proof. reflexivity. Qed.

Lemma match_len_not_open (c0 c1 : ascii) (s : string) :
  Ascii.eqb "(" c1 = false → match_len (String c0 (String c1 s)) = None.
Proof.
  intros H. unfold match_len.
  destruct (Ascii.eqb_spec "(" c1) as [<-|Hne]; [done|].
  repeat case_match; try done; congruence.
Qed.

(** A name made of a part without parentheses followed by a space and a
    parenthesised, non-empty remark on one line is cut down to that
    part. *)
Theorem str_replace_paren_suffix (x y : string) :
  has_char "(" x = false → y ≠ EmptyString → has_char newline y = false →
  str_replace_paren (x +:+ " (" +:+ y +:+ ")") = x.
Proof.
  intros Hx Hy Hnl. unfold str_replace_paren.
  destruct y as [|c y]; [done|]. clear Hy.
  cbn [has_char] in Hnl. apply orb_false_iff in Hnl as [Hc Hnl].
  change (" (" +:+ String c y +:+ ")")
    with (String " " (String "(" (String c (y +:+ ")")))).
  assert (Hcut : sub_paren 0 (String " " (String "(" (String c (y +:+ ")"))))
                 = EmptyString).
  { rewrite sub_paren_cons, match_len_open.
    rewrite Ascii.eqb_sym, Hc, (last_close_line _ Hnl).
    apply sub_paren_skip_all. cbn [String.length].
    rewrite length_append. cbn [String.length]. lia. }
  induction x as [|c0 x IH].
  - change (String.append EmptyString ?s) with s. exact Hcut.
  - cbn [has_char] in Hx. apply orb_false_iff in Hx as [Hc0 Hx].
    change (String c0 x +:+ ?s) with (String c0 (x +:+ s)).
    rewrite sub_paren_cons.
    assert (Hm : match_len (String c0 (x +:+ String " " (String "(" (String c (y +:+ ")"))))) = None).
    { destruct x as [|c1 x].
      - change (String.append EmptyString ?s) with s.
        by apply match_len_not_open.
      - cbn [has_char] in Hx. apply orb_false_iff in Hx as [Hc1 _].
        change (String c1 x +:+ ?s) with (String c1 (x +:+ s)).
        by apply match_len_not_open. }
    rewrite Hm. f_equal. by apply IH.
Qed.

Lemma str_replace_paren_suffix_witness :
  str_replace_paren "BP (ORD GBP0.25)" = "BP"%string.
Proof.
  exact (str_replace_paren_suffix "BP" "ORD GBP0.25" eq_refl
           ltac:(discriminate) eq_refl).
Defined.

End NameStripping.

(** ** Live prices *)

Section LivePrices.

Lemma rint_comp (x y : Q) : (x == y)%Q → rint x = rint y.
Proof.
  intros H. unfold rint. rewrite (Qfloor_comp _ _ H).
  assert (Hc : ((x - inject_Z (Qfloor y))%Q ?= 1 # 2)%Q
               = ((y - inject_Z (Qfloor y))%Q ?= 1 # 2)%Q).
  { apply Qcompare_comp; [by rewrite H|reflexivity]. }
  by rewrite Hc.
Qed.

Lemma rint_Z (z : Z) : rint (inject_Z z) = z.
Proof.
  unfold rint. rewrite Qfloor_Z.
  assert (Hc : ((inject_Z z - inject_Z z)%Q ?= 1 # 2)%Q = Lt).
  { apply (proj1 (Qlt_alt _ _)). unfold Qlt. cbn. lia. }
  by rewrite Hc.
Qed.

Lemma round_idem (x : num) (n : Z) : 0 ≤ n → round (round x n) n = round x n.
Proof.
  intros Hn. destruct x as [q| |]; [|done..]. unfold round.
  assert (Hp : ¬ (inject_Z (10 ^ n) == 0)%Q).
  { intros E. unfold Qeq in E. cbn in E.
    pose proof (Z.pow_pos_nonneg 10 n ltac:(lia) Hn). lia. }
  set (p := inject_Z (10 ^ n)) in *. set (z := rint (q * p)).
  assert (Hz : rint (Qred (inject_Z z / p) * p) = z).
  { rewrite <- (rint_Z z) at 2. apply rint_comp.
    rewrite Qred_correct. field. exact Hp. }
  by rewrite Hz.
Qed.

(** A price look-up never fails: when the request, the decoding or a
    look-up raises, both figures are 0; otherwise they are the chart's two
    figures rounded to four decimals.  Either way the figures carry at
    most four decimals: rounding them again changes nothing. *)
Theorem get_live_price_rounded
    (yahoo_chart : string → result (num * num)) (ticker : string) :
  (is_Ok (yahoo_chart ticker) = false →
   get_live_price yahoo_chart ticker = (Fin 0, Fin 0)) ∧
  (∀ p previous, yahoo_chart ticker = Ok (p, previous) →
     get_live_price yahoo_chart ticker = (round p 4, round previous 4)) ∧
  round (get_live_price yahoo_chart ticker).1 4
  = (get_live_price yahoo_chart ticker).1 ∧
  round (get_live_price yahoo_chart ticker).2 4
  = (get_live_price yahoo_chart ticker).2.
Proof.
  unfold get_live_price.
  destruct (yahoo_chart ticker) as [[p previous]|e]; cbn [fst snd is_Ok].
  - split; [done|]. split; [by intros ? ? [= <- <-]|].
    split; by apply round_idem.
  - split; [done|]. split; [done|]. by split.
Qed.

Lemma get_live_price_rounded_witness :
  get_live_price demo_chart "VOD.L" = (Fin 0, Fin 0) ∧
  get_live_price demo_chart "BP.L" = (Fin (1 # 2), Fin (1 # 2)).
Proof.
  split.
  - exact (proj1 (get_live_price_rounded demo_chart "VOD.L") eq_refl).
  - exact (proj1 (proj2 (get_live_price_rounded demo_chart "BP.L"))
             (Fin (1 # 2)) (Fin (1 # 2)) eq_refl).
Defined.

End LivePrices.
